(** * ObjectFileDB: the object file database of the jak2 disassembler

    Shallow embedding of [ObjectFileDB.cpp]: the DGO decompression loop,
    the DGO container parser, the deduplicating insertion
    [add_obj_from_dgo], and the top-level-segment step of
    [analyze_functions]. *)

From Stdlib Require Import Strings.Byte.
From stdpp Require Import base gmap list strings pretty.

#[global] Instance byte_eq_dec : EqDecision byte := Byte.byte_eq_dec.

(* ================================================================= *)
(** ** Data model *)

(** [ObjectFileRecord]: name, version, crc32 of the data. *)
Record ObjectFileRecord := mkRecord {
  name : string;
  version : nat;
  hash : Z
}.

(** [ObjectFileData]: the stored bytes of one distinct object file.
    The [linked_data] field is filled in by later passes; the insertion
    code leaves it default-constructed, so it is not modelled here. *)
Record ObjectFileData := mkData {
  record : ObjectFileRecord;
  data : list byte;
  reference_count : nat
}.

(** [ObjectFileDB::stats]: four 32-bit unsigned counters (printed with
    [%d], beside the [%ld] of a [size_t]), kept as [Z] in [0, 2^32). *)
Record Stats := mkStats {
  total_dgo_bytes : Z;
  total_obj_files : Z;
  unique_obj_files : Z;
  unique_obj_bytes : Z
}.

(** A value reduced to 32 bits, and [+=] on a 32-bit unsigned counter:
    the sum wraps modulo 2^32. *)
Definition u32 (z : Z) : Z := (z mod 2 ^ 32)%Z.
Definition u32_add (c : Z) (n : Z) : Z := u32 (c + n)%Z.

(** The value of [reference_count] in a default-constructed
    [ObjectFileData]: the new-variant path of [add_obj_from_dgo] never
    assigns the field, so a new entry keeps it. *)
Definition default_reference_count : nat := 0.

(** The database: the two hash maps, the order vector and the stats. *)
Record ObjectFileDB := mkDB {
  obj_files_by_name : gmap string (list ObjectFileData);
  obj_files_by_dgo : gmap string (list ObjectFileRecord);
  obj_file_order : list string;
  stats : Stats
}.

Definition empty_stats : Stats := mkStats 0 0 0 0.

(** A default-constructed database. *)
Definition empty_db : ObjectFileDB := mkDB ∅ ∅ [] empty_stats.

(** [ObjectFileRecord::to_unique_name]: [name + "-v" + std::to_string(version)]. *)
Definition to_unique_name (r : ObjectFileRecord) : string :=
  String.append (name r) (String.append "-v" (pretty (N.of_nat (version r)))).

(** [std::map::operator[]] on a missing key yields an empty vector. *)
Definition variants (db : ObjectFileDB) (n : string) : list ObjectFileData :=
  default [] (obj_files_by_name db !! n).

Definition members (db : ObjectFileDB) (d : string) : list ObjectFileRecord :=
  default [] (obj_files_by_dgo db !! d).

(* ================================================================= *)
(** ** [ObjectFileDB::add_obj_from_dgo] *)

Section AddObj.

(** The checksum routine [crc32] lives outside this file; every result
    below holds for any function in its place. *)
Variable crc32 : list byte -> Z.

(** The search loop [for (auto& e : obj_files_by_name[obj_name])]: the
    first entry with equal size and hash gets its reference count
    incremented, and its record is returned. *)
Fixpoint find_dup (obj_size : nat) (h : Z) (l : list ObjectFileData)
  : option (list ObjectFileData * ObjectFileRecord) :=
  match l with
  | [] => None
  | e :: l' =>
      if Nat.eqb (length (data e)) obj_size && Z.eqb (hash (record e)) h
      then Some (mkData (record e) (data e) (S (reference_count e)) :: l', record e)
      else match find_dup obj_size h l' with
           | Some (l'', rec) => Some (e :: l'', rec)
           | None => None
           end
  end.

Definition add_obj_from_dgo (db : ObjectFileDB) (obj_name : string)
    (obj_data : list byte) (dgo_name : string) : ObjectFileDB :=
  let st := stats db in
  (* stats.total_obj_files++ *)
  let st1 := mkStats (total_dgo_bytes st) (u32_add (total_obj_files st) 1)
                     (unique_obj_files st) (unique_obj_bytes st) in
  let h := crc32 obj_data in
  let l := variants db obj_name in
  match find_dup (length obj_data) h l with
  | Some (l', rec) =>
      (* already got it! *)
      mkDB (<[obj_name := l']> (obj_files_by_name db))
           (<[dgo_name := members db dgo_name ++ [rec]]> (obj_files_by_dgo db))
           (obj_file_order db) st1
  | None =>
      let rec := mkRecord obj_name (length l) h in
      let order := match l with
                   | [] => obj_file_order db ++ [obj_name]
                   | _ :: _ => obj_file_order db
                   end in
      (* ObjectFileData data; -- reference_count is not assigned *)
      mkDB (<[obj_name := l ++ [mkData rec obj_data default_reference_count]]>
              (obj_files_by_name db))
           (<[dgo_name := members db dgo_name ++ [rec]]> (obj_files_by_dgo db))
           order
           (mkStats (total_dgo_bytes st1) (total_obj_files st1)
                    (u32_add (unique_obj_files st1) 1)
                    (u32_add (unique_obj_bytes st1) (Z.of_nat (length obj_data))))
  end.

(** A sequence of insertions [(obj_name, obj_data, dgo_name)], in order. *)
Definition insert_all (db : ObjectFileDB)
    (ops : list (string * list byte * string)) : ObjectFileDB :=
  fold_left (fun db '(n, b, d) => add_obj_from_dgo db n b d) ops db.

End AddObj.

(* ================================================================= *)
(** ** Failures *)

(** Every failure of the C++ code is an [assert] or an exception that
    ends the run; the constructor records which check fired. *)
Inductive DgoError :=
  | OutOfBounds           (* a BinaryReader read or ffwd past the end *)
  | DecompressionError    (* [lzo1x_decompress] did not return LZO_E_OK *)
  | OutputOverrun         (* a write past the end of [decompressed_data] *)
  | MalformedHeader       (* [assert_string_empty_after] *)
  | ArchiveNameMismatch   (* [assert(header.name == dgo_base_name)] *)
  | TruncatedObject       (* [assert(reader.bytes_left() >= obj_header.size)] *)
  | TrailingData          (* [assert(0 == reader.bytes_left())] *)
  | InvariantViolation    (* the asserts of [analyze_functions] *)
  | OutOfRange.           (* [std::vector::at] out of range *)

Inductive result (A : Type) :=
  | Ok (a : A)
  | Err (e : DgoError).
Arguments Ok {A} a.
Arguments Err {A} e.

Definition bind {A B} (r : result A) (k : A -> result B) : result B :=
  match r with Ok a => k a | Err e => Err e end.

(* ================================================================= *)
(** ** Byte-level helpers *)

Definition byte_Z (b : byte) : Z := Z.of_N (Byte.to_N b).

(** [read<uint32_t>] on a little-endian host. *)
Definition le32 (b : list byte) : Z :=
  match b with
  | [b0; b1; b2; b3] =>
      byte_Z b0 + 256 * byte_Z b1 + 65536 * byte_Z b2 + 16777216 * byte_Z b3
  | _ => 0
  end.

(** The bytes of a [char*] up to its null terminator. *)
Fixpoint cstr (s : list byte) : list byte :=
  match s with
  | [] => []
  | b :: s' => if Byte.eqb b x00 then [] else b :: cstr s'
  end.

(** The bytes of a [char[]] after its first null terminator. *)
Fixpoint after_nul (s : list byte) : list byte :=
  match s with
  | [] => []
  | b :: s' => if Byte.eqb b x00 then s' else after_nul s'
  end.

(** [std::string(const char* )]. *)
Definition to_str (s : list byte) : string :=
  String.string_of_list_ascii (map Ascii.ascii_of_byte (cstr s)).

(** [assert_string_empty_after(str, 60)] succeeds: every byte after the
    first null terminator is zero.  (With no terminator in the field the
    C++ loop runs past the field; the model accepts such a field, which
    is what the second loop does once the first has stopped.) *)
Definition empty_after (s : list byte) : bool :=
  forallb (fun b => Byte.eqb b x00) (after_nul s).

(* ================================================================= *)
(** ** The DGO container parser *)

(** Modelled from the spec: the BinaryReader class (util/BinaryReader.h)
    is not in this file; a read past the end fails.
    [reader.read<DgoHeader>()]: a 4-byte size then a 60-byte name.  The
    reader is the rest of the buffer; [bytes_left] is its length. *)
Definition read_header (r : list byte) : option (Z * list byte * list byte) :=
  if 64 <=? length r then Some (le32 (take 4 r), take 60 (drop 4 r), drop 64 r)
  else None.

(** The loop over the [header.size] object headers, then the final
    [assert(0 == reader.bytes_left())]. *)
Fixpoint parse_objs (k : nat) (r : list byte) : result (list (string * list byte)) :=
  match k with
  | O => if Nat.eqb (length r) 0 then Ok [] else Err TrailingData
  | S k' =>
      match read_header r with
      | None => Err OutOfBounds
      | Some (sz, nm, r') =>
          if Z.ltb (Z.of_nat (length r')) sz then Err TruncatedObject
          else if negb (empty_after nm) then Err MalformedHeader
          else bind (parse_objs k' (drop (Z.to_nat sz) r'))
                    (fun objs => Ok ((to_str nm, take (Z.to_nat sz) r') :: objs))
      end
  end.

(** The uncompressed part of [get_objs_from_dgo]: the objects to hand to
    [add_obj_from_dgo], in order. *)
Definition parse_dgo (dgo_base_name : string) (dgo_data : list byte)
  : result (list (string * list byte)) :=
  match read_header dgo_data with
  | None => Err OutOfBounds
  | Some (cnt, nm, r) =>
      if negb (String.eqb (to_str nm) dgo_base_name) then Err ArchiveNameMismatch
      else if negb (empty_after nm) then Err MalformedHeader
      else parse_objs (Z.to_nat cnt) r
  end.

(* ================================================================= *)
(** ** The oZlB decompression loop of [get_objs_from_dgo] *)

(** [0x8000]. *)
Definition MAX_CHUNK_SIZE : nat := 2 ^ 15.

(** The 4 magic bytes "oZlB". *)
Definition jak2_header : list byte := [x6f; x5a; x6c; x42].

Definition is_jak2 (dgo_data : list byte) : bool :=
  bool_decide (take 4 dgo_data = jak2_header).

(** Modelled from the spec: BinaryReader (util/BinaryReader.h) fails on
    a read past the end.  [compressed_reader.read<uint32_t>()] at [pos]. *)
Definition read_u32 (inp : list byte) (pos : nat) : option Z :=
  if pos + 4 <=? length inp then Some (le32 (take 4 (drop pos inp))) else None.

(** [while (!chunk_size) chunk_size = compressed_reader.read<uint32_t>();]
    Each round reads 4 bytes, so [length inp] rounds of fuel are never
    exhausted before a read fails. *)
Fixpoint next_chunk_size (fuel : nat) (inp : list byte) (pos : nat) : result (Z * nat) :=
  match fuel with
  | O => Err OutOfBounds
  | S f =>
      match read_u32 inp pos with
      | None => Err OutOfBounds
      | Some c => if Z.eqb c 0 then next_chunk_size f inp (pos + 4) else Ok (c, pos + 4)
      end
  end.

(** Writing [bs] at [decompressed_data.data() + output_offset]: the
    vector has a fixed size, so a write that does not fit is an overrun. *)
Definition write_out (out : list byte) (off : nat) (bs : list byte) : result (list byte) :=
  if off + length bs <=? length out
  then Ok (take off out ++ bs ++ drop (off + length bs) out)
  else Err OutputOverrun.

(** [while (compressed_reader.get_seek() % 4) compressed_reader.ffwd(1);] *)
Definition align4 (pos : nat) : nat := (pos + 3) / 4 * 4.

Section Decompress.

(** The third-party routine [lzo1x_decompress] applied to [chunk_size]
    input bytes: [Some] of the bytes it produced when it returns
    LZO_E_OK, [None] otherwise. *)
Variable lzo1x_decompress : list byte -> option (list byte).

(** One block: a compressed block for [chunk_size < MAX_CHUNK_SIZE],
    otherwise a literal copy of exactly [MAX_CHUNK_SIZE] bytes.  Returns
    the new buffer, input position and [output_offset]. *)
Definition decompress_block (inp : list byte) (chunk_size : Z) (pos : nat)
    (off : nat) (out : list byte) : result (list byte * nat * nat) :=
  if Z.ltb chunk_size (Z.of_nat MAX_CHUNK_SIZE) then
    let n := Z.to_nat chunk_size in
    if pos + n <=? length inp then
      match lzo1x_decompress (take n (drop pos inp)) with
      | None => Err DecompressionError
      | Some bs => bind (write_out out off bs) (fun out' => Ok (out', pos + n, off + length bs))
      end
    else Err OutOfBounds
  else
    if pos + MAX_CHUNK_SIZE <=? length inp then
      bind (write_out out off (take MAX_CHUNK_SIZE (drop pos inp)))
           (fun out' => Ok (out', pos + MAX_CHUNK_SIZE, off + MAX_CHUNK_SIZE))
    else Err OutOfBounds.

(** The [while (true)] loop; every round reads at least one 4-byte word,
    so [S (length inp)] rounds of fuel are never exhausted. *)
Fixpoint decompress_loop (fuel : nat) (inp : list byte) (decompressed_size : nat)
    (pos off : nat) (out : list byte) : result (list byte) :=
  match fuel with
  | O => Err OutOfBounds
  | S f =>
      bind (next_chunk_size (length inp) inp pos) (fun '(chunk_size, pos1) =>
      bind (decompress_block inp chunk_size pos1 off out) (fun '(out', pos2, off2) =>
        if decompressed_size <=? off2 then Ok out'
        else if align4 pos2 <=? length inp
             then decompress_loop f inp decompressed_size (align4 pos2) off2 out'
             else Err OutOfBounds))
  end.

(** The [if (is_jak2)] branch: skip "oZlB", read the size, resize the
    output vector and run the loop. *)
Definition decompress (inp : list byte) : result (list byte) :=
  match read_u32 inp 4 with
  | None => Err OutOfBounds
  | Some sz =>
      let decompressed_size := Z.to_nat sz in
      decompress_loop (S (length inp)) inp decompressed_size 8 0
                      (repeat x00 decompressed_size)
  end.

End Decompress.

(** [ObjectFileDB::get_objs_from_dgo] on the bytes of one file whose base
    name is [dgo_base_name]. *)
Definition get_objs_from_dgo (crc32 : list byte -> Z)
    (lzo1x_decompress : list byte -> option (list byte))
    (db : ObjectFileDB) (dgo_base_name : string) (file_data : list byte)
  : result ObjectFileDB :=
  let st := stats db in
  let db1 := mkDB (obj_files_by_name db) (obj_files_by_dgo db) (obj_file_order db)
                  (mkStats (u32_add (total_dgo_bytes st) (Z.of_nat (length file_data)))
                           (total_obj_files st)
                           (unique_obj_files st) (unique_obj_bytes st)) in
  bind (if is_jak2 file_data then decompress lzo1x_decompress file_data else Ok file_data)
    (fun dgo_data =>
       bind (parse_dgo dgo_base_name dgo_data)
         (fun objs => Ok (insert_all crc32 db1
                            (map (fun '(n, b) => (n, b, dgo_base_name)) objs)))).

(* ================================================================= *)
(** ** The top-level segment step of [analyze_functions] *)

(** Modelled from the spec: [Function] and [LinkedObjectFile]
    (Function/Function.h, LinkedObjectFile.h) are not in this file; only
    the fields the step reads and writes are kept. *)
Record Function := mkFunction {
  start_word : nat;
  end_word : nat;
  guessed_name : string
}.

Record LinkedObjectFile := mkLinked {
  segments : nat;
  functions_by_seg : list (list Function)
}.

Section TopLevel.

(** [Function::find_global_function_defs], an external pass: it gets the
    object and the function as it is at the call. *)
Variable find_global_function_defs : LinkedObjectFile -> Function -> Function.

Definition set_guessed_name (f : Function) (s : string) : Function :=
  mkFunction (start_word f) (end_word f) s.

(** [functions_by_seg.at(i)]. *)
Definition at_seg (ld : LinkedObjectFile) (i : nat) : result (list Function) :=
  match functions_by_seg ld !! i with
  | Some fs => Ok fs
  | None => Err OutOfRange
  end.

(** The body of the second [for_each_obj] lambda in [analyze_functions]. *)
Definition top_level_step (ld : LinkedObjectFile) : result LinkedObjectFile :=
  if Nat.eqb (segments ld) 3 then
    bind (at_seg ld 2) (fun fs =>
      match fs with
      | [func] =>
          if String.eqb (guessed_name func) "" then
            let func1 := set_guessed_name func "(top-level-init)" in
            let ld1 := mkLinked (segments ld) (<[2 := [func1]]> (functions_by_seg ld)) in
            let func2 := find_global_function_defs ld1 func1 in
            Ok (mkLinked (segments ld) (<[2 := [func2]]> (functions_by_seg ld)))
          else Err InvariantViolation
      | _ => Err InvariantViolation
      end)
  else Ok ld.

(** Modelled from the spec: [for_each_obj] (ObjectFileDB.h) visits every
    stored object once, in the global insertion order; the objects'
    linked data is given here in that order. *)
Fixpoint top_level_pass (objs : list LinkedObjectFile) : result (list LinkedObjectFile) :=
  match objs with
  | [] => Ok []
  | ld :: rest =>
      bind (top_level_step ld) (fun ld' =>
      bind (top_level_pass rest) (fun rest' => Ok (ld' :: rest')))
  end.

End TopLevel.

(* ================================================================= *)
(** ** Tests *)

Definition crc_len (l : list byte) : Z := Z.of_nat (length l).

Example test_version :
  let db := insert_all crc_len empty_db [("foo", [x01], "A"); ("foo", [x01; x02], "B")] in
  map (fun e => to_unique_name (record e)) (variants db "foo") = ["foo-v0"; "foo-v1"]
  /\ obj_file_order db = ["foo"].
Proof. vm_compute. auto. Qed.

(* ================================================================= *)
(** * Properties of the insertion *)

(** Sum of [f] over the values of a map. *)
Definition map_sum {V} (f : V -> nat) (m : gmap string V) : nat :=
  map_fold (fun _ v acc => f v + acc) 0 m.

Lemma map_sum_empty {V} (f : V -> nat) : map_sum f ∅ = 0.
Proof. unfold map_sum. by rewrite map_fold_empty. Qed.

Lemma map_sum_insert {V} (f : V -> nat) (m : gmap string V) k v :
  map_sum f (<[k:=v]> m) + default 0 (f <$> m !! k) = map_sum f m + f v.
Proof.
  unfold map_sum.
  destruct (m !! k) as [y|] eqn:Hk; simpl.
  - rewrite <- insert_delete_eq.
    rewrite (map_fold_delete_L _ _ k y m); [|intros; lia|done].
    rewrite map_fold_insert_L; [lia|intros; lia|].
    by rewrite lookup_delete_eq.
  - rewrite map_fold_insert_L; [lia|intros; lia|done].
Qed.

Lemma u32_add_u32 a b : u32_add (u32 a) b = u32 (a + b)%Z.
Proof. unfold u32_add, u32. apply Zplus_mod_idemp_l. Qed.

Lemma u32_range z : (0 <= u32 z < 2 ^ 32)%Z.
Proof. unfold u32. apply Z.mod_pos_bound. lia. Qed.

Lemma u32_small z : (0 <= z < 2 ^ 32)%Z -> u32 z = z.
Proof. unfold u32. apply Z.mod_small. Qed.

Definition bump (e : ObjectFileData) : ObjectFileData :=
  mkData (record e) (data e) (S (reference_count e)).

Definition matches (sz : nat) (h : Z) (e : ObjectFileData) : Prop :=
  length (data e) = sz /\ hash (record e) = h.

Lemma find_dup_None sz h l :
  find_dup sz h l = None <-> Forall (fun e => ~ matches sz h e) l.
Proof.
  unfold matches. induction l as [|e l IH]; simpl.
  - split; auto.
  - rewrite Forall_cons, <- IH.
    destruct (Nat.eqb_spec (length (data e)) sz), (Z.eqb_spec (hash (record e)) h);
      simpl; try (split; [discriminate|intros [Hn _]; tauto]);
      destruct (find_dup sz h l) as [[??]|]; split; try discriminate; intuition congruence.
Qed.

Lemma find_dup_Some sz h l l' r :
  find_dup sz h l = Some (l', r) ->
  exists i e, l !! i = Some e /\ matches sz h e /\
    (forall j e', j < i -> l !! j = Some e' -> ~ matches sz h e') /\
    l' = <[i := bump e]> l /\ r = record e.
Proof.
  unfold matches. revert l' r. induction l as [|e l IH]; intros l' r; simpl; [discriminate|].
  destruct (Nat.eqb_spec (length (data e)) sz), (Z.eqb_spec (hash (record e)) h); simpl.
  1: { intros [= <- <-]. exists 0, e. repeat split; auto. intros; lia. }
  all: destruct (find_dup sz h l) as [[l1 r1]|] eqn:Hf; [|discriminate].
    all: intros [= <- <-]; destruct (IH _ _ eq_refl) as (i & e' & Hi & Hm & Hfirst & -> & ->).
    all: exists (S i), e'; split; [done|split; [done|split; [|done]]].
    all: intros [|j] e'' Hj Hl; simpl in Hl;
      [injection Hl as <-; tauto|apply (Hfirst j); auto; lia].
Qed.

Lemma find_dup_Some_ex sz h l :
  (exists e, e ∈ l /\ matches sz h e) -> exists l' r, find_dup sz h l = Some (l', r).
Proof.
  intros (e & Hin & Hm). destruct (find_dup sz h l) as [[l' r]|] eqn:Hf; [by exists l', r|].
  apply find_dup_None in Hf. rewrite Forall_forall in Hf. by destruct (Hf e Hin).
Qed.

Lemma string_app_inj_l (s t1 t2 : string) :
  String.append s t1 = String.append s t2 -> t1 = t2.
Proof. induction s; simpl; [done|]. intros [= H]. auto. Qed.

Lemma to_unique_name_inj r1 r2 :
  name r1 = name r2 -> to_unique_name r1 = to_unique_name r2 -> version r1 = version r2.
Proof.
  unfold to_unique_name. intros -> H.
  apply string_app_inj_l in H. simpl in H. injection H as H.
  apply pretty_N_inj in H. lia.
Qed.

Section Facts.

Variable crc32 : list byte -> Z.

Abbreviation add := (add_obj_from_dgo crc32).

(** The record stored by an insertion and appended to the DGO's list. *)
Definition inserted_record (db : ObjectFileDB) (n : string) (b : list byte) : ObjectFileRecord :=
  match find_dup (length b) (crc32 b) (variants db n) with
  | Some (_, rec) => rec
  | None => mkRecord n (length (variants db n)) (crc32 b)
  end.

Lemma add_variants_ne db n b d k :
  k <> n -> variants (add db n b d) k = variants db k.
Proof.
  intros Hk. unfold add_obj_from_dgo, variants.
  destruct (find_dup _ _ _) as [[??]|]; simpl; by rewrite lookup_insert_ne.
Qed.

Lemma add_members db n b d d' :
  members (add db n b d) d' =
  if decide (d' = d) then members db d ++ [inserted_record db n b] else members db d'.
Proof.
  unfold add_obj_from_dgo, inserted_record, members.
  destruct (find_dup _ _ _) as [[??]|]; simpl;
    case_decide; subst; [by rewrite lookup_insert_eq|by rewrite lookup_insert_ne
                        |by rewrite lookup_insert_eq|by rewrite lookup_insert_ne].
Qed.

Lemma add_obj_files_by_dgo db n b d :
  obj_files_by_dgo (add db n b d) =
  <[d := members db d ++ [inserted_record db n b]]> (obj_files_by_dgo db).
Proof.
  unfold add_obj_from_dgo, inserted_record. by destruct (find_dup _ _ _) as [[??]|].
Qed.

Lemma add_total db n b d :
  total_obj_files (stats (add db n b d)) = u32_add (total_obj_files (stats db)) 1.
Proof. unfold add_obj_from_dgo. by destruct (find_dup _ _ _) as [[??]|]. Qed.

Lemma add_total_dgo_bytes db n b d :
  total_dgo_bytes (stats (add db n b d)) = total_dgo_bytes (stats db).
Proof. unfold add_obj_from_dgo. by destruct (find_dup _ _ _) as [[??]|]. Qed.

(** The shape of a database built by insertions: every stored list is
    non-empty and holds versions 0, 1, ... of its own name; the order
    lists each stored name exactly once. *)
Definition Inv (db : ObjectFileDB) : Prop :=
  (forall n l, obj_files_by_name db !! n = Some l ->
     l <> [] /\ forall i e, l !! i = Some e -> name (record e) = n /\ version (record e) = i)
  /\ NoDup (obj_file_order db)
  /\ (forall n, n ∈ obj_file_order db <-> is_Some (obj_files_by_name db !! n)).

Lemma Inv_empty : Inv empty_db.
Proof.
  split; [|split].
  - intros n l H. simpl in H. by rewrite lookup_empty in H.
  - constructor.
  - intros n. simpl. rewrite lookup_empty. split; [intros H; inversion H|intros [? H]; discriminate].
Qed.

Lemma Inv_variants db n :
  Inv db -> variants db n = [] <-> obj_files_by_name db !! n = None.
Proof.
  intros [Hl _]. unfold variants. destruct (obj_files_by_name db !! n) as [l|] eqn:E; simpl.
  - destruct (Hl n l E) as [Hne _]. split; [done|discriminate].
  - tauto.
Qed.

Lemma Inv_variants_Some db n :
  Inv db -> variants db n <> [] -> obj_files_by_name db !! n = Some (variants db n).
Proof.
  intros HI Hne. unfold variants in *.
  destruct (obj_files_by_name db !! n); [done|by destruct Hne].
Qed.

Lemma Inv_add db n b d : Inv db -> Inv (add db n b d).
Proof.
  intros HI. pose proof HI as (Hl & Hnd & Hmem).
  unfold add_obj_from_dgo. destruct (find_dup _ _ _) as [[l' r]|] eqn:Hf; simpl.
  - apply find_dup_Some in Hf as (i & e & Hi & Hm & _ & -> & ->).
    assert (Hne : variants db n <> []) by (intros E; rewrite E in Hi; discriminate).
    pose proof (Inv_variants_Some db n HI Hne) as HS.
    pose proof (lookup_lt_Some _ _ _ Hi) as Hlt.
    split; [|split]; [|done|].
    + intros k lk Hk. simpl in Hk. destruct (decide (k = n)) as [->|Hkn].
      * rewrite lookup_insert_eq in Hk. injection Hk as <-. split.
        -- intros E. apply (f_equal length) in E. rewrite length_insert in E.
           destruct (variants db n); simpl in *; [done|discriminate].
        -- intros j e' Hj. destruct (decide (j = i)) as [->|Hji].
           ++ rewrite list_lookup_insert_eq in Hj by done. injection Hj as <-.
              exact (proj2 (Hl n _ HS) i e Hi).
           ++ rewrite list_lookup_insert_ne in Hj by done.
              exact (proj2 (Hl n _ HS) j e' Hj).
      * rewrite lookup_insert_ne in Hk by done. eauto.
    + intros k. simpl. rewrite Hmem. destruct (decide (k = n)) as [->|Hkn].
      * rewrite lookup_insert_eq, HS. split; eauto.
      * by rewrite lookup_insert_ne.
  - split; [|split].
    + intros k lk Hk. simpl in Hk. destruct (decide (k = n)) as [->|Hkn].
      * rewrite lookup_insert_eq in Hk. injection Hk as <-. split; [intros E; apply app_nil in E; by destruct E as [_ ?]|].
        intros j e' Hj. apply lookup_app_Some in Hj as [Hj|[Hlen Hj]].
        -- assert (Hne : variants db n <> []) by (intros E; rewrite E in Hj; discriminate).
           exact (proj2 (Hl n _ (Inv_variants_Some db n HI Hne)) j e' Hj).
        -- apply list_lookup_singleton_Some in Hj as [Hj <-]. simpl. split; [done|lia].
      * rewrite lookup_insert_ne in Hk by done. eauto.
    + simpl. destruct (variants db n) eqn:Hv; [|done].
      apply Inv_variants in Hv; [|done].
      apply NoDup_app. split; [done|split; [|apply NoDup_singleton]].
      intros k Hk ->%list_elem_of_singleton. apply Hmem in Hk. rewrite Hv in Hk.
      by destruct Hk.
    + intros k. simpl. destruct (decide (k = n)) as [->|Hkn].
      * rewrite lookup_insert_eq. split; [eauto|intros _].
        destruct (variants db n) eqn:Hv.
        -- apply elem_of_app. right. by apply list_elem_of_singleton.
        -- apply Hmem. rewrite (Inv_variants_Some db n HI); [eauto|by rewrite Hv].
      * rewrite lookup_insert_ne by done. rewrite <- Hmem.
        destruct (variants db n); [|done].
        rewrite elem_of_app, list_elem_of_singleton. tauto.
Qed.

Lemma Inv_insert_all db ops : Inv db -> Inv (insert_all crc32 db ops).
Proof.
  revert db. induction ops as [|[[n b] d] ops IH]; intros db HI; simpl; [done|].
  apply IH, Inv_add, HI.
Qed.

Lemma Inv_reachable ops : Inv (insert_all crc32 empty_db ops).
Proof. apply Inv_insert_all, Inv_empty. Qed.

Lemma insert_all_app db ops1 ops2 :
  insert_all crc32 db (ops1 ++ ops2) = insert_all crc32 (insert_all crc32 db ops1) ops2.
Proof. unfold insert_all. by rewrite fold_left_app. Qed.

Lemma insert_all_cons db n b d ops :
  insert_all crc32 db ((n, b, d) :: ops) = insert_all crc32 (add db n b d) ops.
Proof. reflexivity. Qed.

Lemma add_variants_eq db n b d :
  variants (add db n b d) n =
  match find_dup (length b) (crc32 b) (variants db n) with
  | Some (l', _) => l'
  | None => variants db n ++
              [mkData (mkRecord n (length (variants db n)) (crc32 b)) b default_reference_count]
  end.
Proof.
  unfold add_obj_from_dgo, variants at 1.
  destruct (find_dup _ _ _) as [[??]|]; simpl; by rewrite lookup_insert_eq.
Qed.

Lemma add_variants_prefix db n b d k :
  record <$> variants db k `prefix_of` record <$> variants (add db n b d) k.
Proof.
  destruct (decide (k = n)) as [->|Hkn]; [|by rewrite add_variants_ne].
  rewrite add_variants_eq. destruct (find_dup _ _ _) as [[l' r]|] eqn:Hf.
  - apply find_dup_Some in Hf as (i & e & Hi & _ & _ & -> & _).
    rewrite list_fmap_insert. unfold bump; simpl.
    rewrite list_insert_id; [done|]. by rewrite list_lookup_fmap, Hi.
  - rewrite fmap_app. by apply prefix_app_r.
Qed.

Lemma insert_all_variants_prefix db ops k :
  record <$> variants db k `prefix_of` record <$> variants (insert_all crc32 db ops) k.
Proof.
  revert db. induction ops as [|[[n b] d] ops IH]; intros db; simpl; [done|].
  etrans; [apply (add_variants_prefix db n b d)|apply IH].
Qed.

Definition op_name (op : string * list byte * string) : string :=
  let '(n, _, _) := op in n.

Definition op_dgo (op : string * list byte * string) : string :=
  let '(_, _, d) := op in d.

(** The first-seen order of the names of a sequence of insertions, from
    the words of the spec: a name is appended when it is not yet listed. *)
Definition first_seen (acc : list string) (names : list string) : list string :=
  fold_left (fun acc n => if decide (n ∈ acc) then acc else acc ++ [n]) names acc.

Lemma add_order db n b d :
  Inv db ->
  obj_file_order (add db n b d) =
  if decide (n ∈ obj_file_order db) then obj_file_order db else obj_file_order db ++ [n].
Proof.
  intros HI. pose proof HI as (_ & _ & Hmem).
  unfold add_obj_from_dgo. destruct (find_dup _ _ _) as [[l' r]|] eqn:Hf; simpl.
  - apply find_dup_Some in Hf as (i & e & Hi & _).
    assert (Hne : variants db n <> []) by (intros E; rewrite E in Hi; discriminate).
    rewrite decide_True; [done|]. apply Hmem. rewrite (Inv_variants_Some db n HI Hne). eauto.
  - destruct (variants db n) eqn:Hv.
    + apply Inv_variants in Hv; [|done]. rewrite decide_False; [done|].
      rewrite Hmem, Hv. by intros [? ?].
    + rewrite decide_True; [done|]. apply Hmem.
      rewrite (Inv_variants_Some db n HI); [eauto|by rewrite Hv].
Qed.

Lemma insert_all_order db ops :
  Inv db ->
  obj_file_order (insert_all crc32 db ops) = first_seen (obj_file_order db) (map op_name ops).
Proof.
  revert db. induction ops as [|[[n b] d] ops IH]; intros db HI; simpl; [done|].
  rewrite IH by (by apply Inv_add). by rewrite add_order.
Qed.

(** Entry counts and byte totals of the name map. *)
Definition entry_count (db : ObjectFileDB) : nat := map_sum length (obj_files_by_name db).

Definition data_bytes (l : list ObjectFileData) : nat := sum_list_with (fun e => length (data e)) l.

Definition entry_bytes (db : ObjectFileDB) : nat := map_sum data_bytes (obj_files_by_name db).

Lemma default_variants {V} (f : list V -> nat) (m : gmap string (list V)) k :
  default 0 (f <$> m !! k) = if decide (m !! k = None) then 0 else f (default [] (m !! k)).
Proof. by destruct (m !! k). Qed.

Lemma data_bytes_bump l i e :
  l !! i = Some e -> data_bytes (<[i := bump e]> l) = data_bytes l.
Proof.
  unfold data_bytes. revert i. induction l as [|x l IH]; intros [|i] Hi; simpl in *; try done.
  - by injection Hi as ->.
  - by rewrite IH.
Qed.

Lemma data_bytes_snoc l x : data_bytes (l ++ [x]) = data_bytes l + length (data x).
Proof. unfold data_bytes. rewrite sum_list_with_app. simpl. lia. Qed.

(** How one insertion moves the four statistics and the two sums. *)
Lemma add_counts db n b d :
  let db' := add db n b d in
  total_obj_files (stats db') = u32_add (total_obj_files (stats db)) 1 /\
  match find_dup (length b) (crc32 b) (variants db n) with
  | Some _ =>
      unique_obj_files (stats db') = unique_obj_files (stats db) /\
      unique_obj_bytes (stats db') = unique_obj_bytes (stats db) /\
      entry_count db' = entry_count db /\ entry_bytes db' = entry_bytes db
  | None =>
      unique_obj_files (stats db') = u32_add (unique_obj_files (stats db)) 1 /\
      unique_obj_bytes (stats db') =
        u32_add (unique_obj_bytes (stats db)) (Z.of_nat (length b)) /\
      entry_count db' = S (entry_count db) /\ entry_bytes db' = entry_bytes db + length b
  end.
Proof.
  unfold entry_count, entry_bytes, add_obj_from_dgo.
  pose proof (map_sum_insert length (obj_files_by_name db) n) as Hc.
  pose proof (map_sum_insert data_bytes (obj_files_by_name db) n) as Hb.
  assert (Hd : forall f : list ObjectFileData -> nat, f [] = 0 ->
            default 0 (f <$> obj_files_by_name db !! n) = f (variants db n))
    by (intros f Hf; unfold variants; by destruct (obj_files_by_name db !! n)).
  rewrite (Hd length) in Hc by done. rewrite (Hd data_bytes) in Hb by done.
  destruct (find_dup _ _ _) as [[l' r]|] eqn:Hf; simpl; (split; [done|]).
  - apply find_dup_Some in Hf as (i & e & Hi & _ & _ & -> & _).
    specialize (Hc (<[i:=bump e]> (variants db n))). specialize (Hb (<[i:=bump e]> (variants db n))).
    rewrite length_insert in Hc. rewrite data_bytes_bump in Hb by done.
    repeat split; lia.
  - set (e := mkData (mkRecord n (length (variants db n)) (crc32 b)) b default_reference_count).
    specialize (Hc (variants db n ++ [e])). specialize (Hb (variants db n ++ [e])).
    rewrite length_app in Hc. rewrite data_bytes_snoc in Hb.
    simpl in *. repeat split; lia.
Qed.

Definition member_count (db : ObjectFileDB) : nat := map_sum length (obj_files_by_dgo db).

Lemma add_member_count db n b d : member_count (add db n b d) = S (member_count db).
Proof.
  unfold member_count. rewrite add_obj_files_by_dgo.
  pose proof (map_sum_insert length (obj_files_by_dgo db) d
                (members db d ++ [inserted_record db n b])) as H.
  rewrite length_app in H. unfold members in *.
  destruct (obj_files_by_dgo db !! d); simpl in *; lia.
Qed.

Lemma insert_all_members db ops d :
  length (members (insert_all crc32 db ops) d) =
  length (members db d) + length (filter (fun op => op_dgo op = d) ops).
Proof.
  revert db. induction ops as [|[[n b] d'] ops IH]; intros db; simpl; [lia|].
  rewrite IH, add_members, filter_cons. simpl.
  destruct (decide (d' = d)) as [->|Hne]; simpl.
  - rewrite decide_True, length_app by done. simpl. lia.
  - rewrite decide_False by congruence. lia.
Qed.

(** The statistics and sums along a sequence of insertions: each
    counter is its count reduced to 32 bits. *)
Lemma insert_all_counts db ops :
  total_obj_files (stats db) = u32 (Z.of_nat (member_count db)) ->
  unique_obj_files (stats db) = u32 (Z.of_nat (entry_count db)) ->
  unique_obj_bytes (stats db) = u32 (Z.of_nat (entry_bytes db)) ->
  let db' := insert_all crc32 db ops in
  member_count db' = member_count db + length ops /\
  total_obj_files (stats db') = u32 (Z.of_nat (member_count db')) /\
  unique_obj_files (stats db') = u32 (Z.of_nat (entry_count db')) /\
  unique_obj_bytes (stats db') = u32 (Z.of_nat (entry_bytes db')) /\
  entry_count db' <= entry_count db + length ops.
Proof.
  revert db. induction ops as [|[[n b] d] ops IH]; intros db Ht Hu Hb; simpl; [lia|].
  pose proof (add_counts db n b d) as [Ht' Hm]. pose proof (add_member_count db n b d) as Hmc.
  destruct (IH (add db n b d)) as (H1 & H2 & H3 & H4 & H5).
  - rewrite Ht', Ht, Hmc, u32_add_u32. f_equal. lia.
  - destruct (find_dup _ _ _) as [[??]|]; destruct Hm as (-> & _ & Hc & _);
      rewrite ?Hu, ?u32_add_u32, Hc; [done|f_equal; lia].
  - destruct (find_dup _ _ _) as [[??]|]; destruct Hm as (_ & -> & _ & Hc);
      rewrite ?Hb, ?u32_add_u32, Hc; [done|f_equal; lia].
  - repeat split; try done; [lia|].
    destruct (find_dup _ _ _) as [[??]|]; destruct Hm as (_ & _ & Hc & _); lia.
Qed.

Lemma insert_all_counts_empty ops :
  let db := insert_all crc32 empty_db ops in
  member_count db = length ops /\
  total_obj_files (stats db) = u32 (Z.of_nat (member_count db)) /\
  unique_obj_files (stats db) = u32 (Z.of_nat (entry_count db)) /\
  unique_obj_bytes (stats db) = u32 (Z.of_nat (entry_bytes db)) /\
  entry_count db <= length ops.
Proof.
  destruct (insert_all_counts empty_db ops) as (H1 & H2 & H3 & H4 & H5);
    unfold member_count, entry_count, entry_bytes in *; simpl in *;
    rewrite ?map_sum_empty in *; try done.
  all: repeat split; done || lia.
Qed.

(* ================================================================= *)
(** ** Claims about the insertion *)

(** C1 (deduplication identity, amended).  Inserting a content under a
    name that has no variant yet, then a content of the same length and
    the same crc32 under that name from another DGO, leaves one entry
    for the name: version 0, holding the first bytes, and reference
    count 1 (the new entry keeps the default count 0, the duplicate adds
    1); both DGO lists end with the same record (name, version 0).  The
    second content is arbitrary apart from length and hash: no byte
    comparison takes place. *)
Theorem dedup_identity db n c c' d1 d2 :
  variants db n = [] -> d1 <> d2 ->
  length c' = length c -> crc32 c' = crc32 c ->
  let db2 := add (add db n c d1) n c' d2 in
  variants db2 n = [mkData (mkRecord n 0 (crc32 c)) c 1] /\
  members db2 d1 = members db d1 ++ [mkRecord n 0 (crc32 c)] /\
  members db2 d2 = members db d2 ++ [mkRecord n 0 (crc32 c)].
Proof.
  intros Hv Hd Hl Hh db2. unfold db2.
  assert (Hv1 : variants (add db n c d1) n = [mkData (mkRecord n 0 (crc32 c)) c 0]).
  { rewrite add_variants_eq, Hv. reflexivity. }
  assert (Hf : find_dup (length c') (crc32 c') (variants (add db n c d1) n) =
               Some ([mkData (mkRecord n 0 (crc32 c)) c 1], mkRecord n 0 (crc32 c))).
  { rewrite Hv1, Hl, Hh. simpl. by rewrite Nat.eqb_refl, Z.eqb_refl. }
  split; [|split].
  - by rewrite add_variants_eq, Hf.
  - rewrite add_members, decide_False by done.
    rewrite add_members, decide_True by done.
    unfold inserted_record. rewrite Hv. reflexivity.
  - rewrite add_members, decide_True by done.
    rewrite add_members, decide_False by done.
    unfold inserted_record at 1. by rewrite Hf.
Qed.

(** C2 (versioning).  In any database built by insertions, inserting a
    content under [n] whose (length, crc32) matches none of the stored
    variants of [n] appends an entry with name [n] and version equal to
    the number of variants of [n] before the insertion; the records of
    all stored variants are never changed by later insertions (they stay
    a prefix); and the new record's unique name [n-vK] differs from the
    unique name of every earlier variant of [n]. *)
Theorem new_variant_version ops0 n b d :
  let db := insert_all crc32 empty_db ops0 in
  (forall e, e ∈ variants db n -> ~ matches (length b) (crc32 b) e) ->
  let r := mkRecord n (length (variants db n)) (crc32 b) in
  let db' := add db n b d in
  variants db' n = variants db n ++ [mkData r b default_reference_count] /\
  (forall ops k, record <$> variants db' k `prefix_of`
                 record <$> variants (insert_all crc32 db' ops) k) /\
  (forall e, e ∈ variants db n -> to_unique_name (record e) <> to_unique_name r).
Proof.
  intros db Hnm r db'.
  assert (Hf : find_dup (length b) (crc32 b) (variants db n) = None)
    by (apply find_dup_None, Forall_forall; exact Hnm).
  split; [|split].
  - unfold db'. by rewrite add_variants_eq, Hf.
  - intros ops k. apply insert_all_variants_prefix.
  - intros e Hin Heq.
    assert (HI : Inv db) by apply Inv_reachable.
    assert (Hne : variants db n <> []) by (intros E; rewrite E in Hin; inversion Hin).
    apply list_elem_of_lookup in Hin as [j Hj].
    destruct (proj1 HI n _ (Inv_variants_Some db n HI Hne)) as [_ Hver].
    destruct (Hver j e Hj) as [Hname Hvj].
    apply to_unique_name_inj in Heq; [|done]. simpl in Heq.
    apply lookup_lt_Some in Hj. lia.
Qed.

(** C3 (global insertion order).  From the empty database, the order
    vector after a sequence of insertions is the first-seen order of
    their names, without repetition; one insertion appends its name
    exactly when the name has no stored variant yet. *)
Theorem global_insertion_order ops :
  obj_file_order (insert_all crc32 empty_db ops) = first_seen [] (map op_name ops) /\
  NoDup (obj_file_order (insert_all crc32 empty_db ops)) /\
  (forall n b d, let db := insert_all crc32 empty_db ops in
     obj_file_order (add db n b d) =
     if decide (variants db n = []) then obj_file_order db ++ [n] else obj_file_order db).
Proof.
  pose proof (Inv_reachable ops) as HI.
  split; [|split].
  - by rewrite (insert_all_order empty_db ops Inv_empty).
  - apply HI.
  - intros n b d. cbv zeta. set (db := insert_all crc32 empty_db ops) in *.
    rewrite add_order by done.
    pose proof HI as (_ & _ & Hmem).
    destruct (decide (variants db n = [])) as [Hv|Hv].
    + apply Inv_variants in Hv; [|done]. rewrite decide_False; [done|].
      rewrite Hmem, Hv. by intros [? ?].
    + rewrite decide_True; [done|]. apply Hmem.
      rewrite (Inv_variants_Some db n HI Hv). eauto.
Qed.

(** C4 (statistics consistency, amended).  From the empty database,
    after a sequence of insertions, each 32-bit counter is its count
    modulo 2^32: [total_obj_files] the number of insertions,
    [unique_obj_files] the number of stored entries (at most the number
    of insertions), [unique_obj_bytes] the sum of the sizes of the
    stored entries.  Below 2^32 insertions the two object counters are
    exact and [unique_obj_files <= total_obj_files]; below 2^32 stored
    bytes the byte counter is exact.  Each insertion adds 1 to
    [total_obj_files]; the two unique counters move only on the
    new-variant path. *)
Theorem statistics_consistency ops :
  let db := insert_all crc32 empty_db ops in
  total_obj_files (stats db) = u32 (Z.of_nat (length ops)) /\
  unique_obj_files (stats db) = u32 (Z.of_nat (entry_count db)) /\
  entry_count db <= length ops /\
  unique_obj_bytes (stats db) = u32 (Z.of_nat (entry_bytes db)) /\
  ((Z.of_nat (length ops) < 2 ^ 32)%Z ->
     total_obj_files (stats db) = Z.of_nat (length ops) /\
     unique_obj_files (stats db) = Z.of_nat (entry_count db) /\
     (unique_obj_files (stats db) <= total_obj_files (stats db))%Z) /\
  ((Z.of_nat (entry_bytes db) < 2 ^ 32)%Z ->
     unique_obj_bytes (stats db) = Z.of_nat (entry_bytes db)) /\
  (forall db0 n b d,
     let db1 := add db0 n b d in
     total_obj_files (stats db1) = u32_add (total_obj_files (stats db0)) 1 /\
     unique_obj_files (stats db1) =
       match find_dup (length b) (crc32 b) (variants db0 n) with
       | Some _ => unique_obj_files (stats db0)
       | None => u32_add (unique_obj_files (stats db0)) 1
       end /\
     unique_obj_bytes (stats db1) =
       match find_dup (length b) (crc32 b) (variants db0 n) with
       | Some _ => unique_obj_bytes (stats db0)
       | None => u32_add (unique_obj_bytes (stats db0)) (Z.of_nat (length b))
       end).
Proof.
  intros db.
  destruct (insert_all_counts_empty ops) as (H1 & H2 & H3 & H4 & H5). fold db in H1, H2, H3, H4, H5.
  rewrite H1 in H2.
  split; [exact H2|split; [exact H3|split; [exact H5|split; [exact H4|split; [|split]]]]].
  - intros Hlt. rewrite H2, H3, !u32_small by lia. lia.
  - intros Hlt. rewrite H4, u32_small by lia. done.
  - intros db0 n b d. cbv zeta. destruct (add_counts db0 n b d) as [Ht Hm]. cbv zeta in Ht, Hm.
    split; [done|]. destruct (find_dup _ _ _) as [[??]|]; tauto.
Qed.

(** C7 (duplicate-insert frame).  When a stored variant of [n] has the
    length and crc32 of the inserted content, the insertion changes only
    the reference count of the first such variant [e] (its record and
    bytes stay) and appends [record e] to the DGO's list: every other
    name and every other variant, the other DGO lists, the order, the
    unique counters and the DGO byte total are unchanged, and the number
    of stored entries stays the same. *)
Theorem duplicate_insert_frame db n b d :
  (exists e, e ∈ variants db n /\ matches (length b) (crc32 b) e) ->
  let db' := add db n b d in
  exists i e,
    variants db n !! i = Some e /\ matches (length b) (crc32 b) e /\
    variants db' n = <[i := mkData (record e) (data e) (S (reference_count e))]> (variants db n) /\
    (forall j, j <> i -> variants db' n !! j = variants db n !! j) /\
    (forall k, k <> n -> obj_files_by_name db' !! k = obj_files_by_name db !! k) /\
    members db' d = members db d ++ [record e] /\
    (forall d', d' <> d -> members db' d' = members db d') /\
    obj_file_order db' = obj_file_order db /\
    unique_obj_files (stats db') = unique_obj_files (stats db) /\
    unique_obj_bytes (stats db') = unique_obj_bytes (stats db) /\
    total_dgo_bytes (stats db') = total_dgo_bytes (stats db) /\
    total_obj_files (stats db') = u32_add (total_obj_files (stats db)) 1 /\
    entry_count db' = entry_count db.
Proof.
  intros Hex db'.
  destruct (find_dup_Some_ex _ _ _ Hex) as (l' & r & Hf).
  pose proof Hf as Hf'.
  apply find_dup_Some in Hf' as (i & e & Hi & Hm & _ & Hl' & Hr).
  exists i, e. pose proof (add_counts db n b d) as [Ht Hc]. rewrite Hf in Hc.
  destruct Hc as (Hu & Hub & Hec & _).
  do 2 (split; [done|]). split; [|split; [|split; [|split; [|split]]]].
  - unfold db'. by rewrite add_variants_eq, Hf, Hl'.
  - intros j Hj. unfold db'. rewrite add_variants_eq, Hf, Hl'.
    by rewrite list_lookup_insert_ne.
  - intros k Hk. unfold db', add_obj_from_dgo. rewrite Hf. simpl. by rewrite lookup_insert_ne.
  - unfold db'. rewrite add_members, decide_True by done.
    unfold inserted_record. by rewrite Hf, Hr.
  - intros d' Hd. unfold db'. by rewrite add_members, decide_False.
  - split; [unfold db', add_obj_from_dgo; by rewrite Hf|].
    split; [done|]. split; [done|]. split; [by apply add_total_dgo_bytes|].
    split; [done|]. exact Hec.
Qed.

(** C9 (DGO membership count, amended).  Every insertion appends exactly
    one record to its DGO's list and leaves the other lists alone; from
    the empty database, each DGO's list is as long as the number of
    insertions from that DGO, and the 32-bit [total_obj_files] is the sum
    of the lengths of all lists modulo 2^32 (that sum itself while it is
    below 2^32). *)
Theorem membership_count ops :
  (forall db n b d d',
     members (add db n b d) d' =
     if decide (d' = d) then members db d ++ [inserted_record db n b] else members db d') /\
  (forall d, length (members (insert_all crc32 empty_db ops) d) =
             length (filter (fun op => op_dgo op = d) ops)) /\
  total_obj_files (stats (insert_all crc32 empty_db ops)) =
    u32 (Z.of_nat (member_count (insert_all crc32 empty_db ops))) /\
  ((Z.of_nat (member_count (insert_all crc32 empty_db ops)) < 2 ^ 32)%Z ->
   total_obj_files (stats (insert_all crc32 empty_db ops)) =
     Z.of_nat (member_count (insert_all crc32 empty_db ops))).
Proof.
  destruct (insert_all_counts_empty ops) as (_ & H2 & _).
  split; [|split; [|split]].
  - apply add_members.
  - intros d. rewrite insert_all_members. unfold members. simpl. by rewrite lookup_empty.
  - exact H2.
  - intros Hlt. rewrite H2, u32_small by lia. done.
Qed.

End Facts.

(* ================================================================= *)
(** ** Instances of the insertion claims *)

(** Two different one-byte contents collide under [crc_len]: they are
    stored once. *)
Lemma dedup_identity_witness :
  (variants empty_db "foo" = [] /\ "A" <> "B" /\
   length [x02] = length [x01] /\ crc_len [x02] = crc_len [x01]) /\
  (let db2 := add_obj_from_dgo crc_len (add_obj_from_dgo crc_len empty_db "foo" [x01] "A")
                "foo" [x02] "B" in
   variants db2 "foo" = [mkData (mkRecord "foo" 0 (crc_len [x01])) [x01] 1] /\
   members db2 "A" = members empty_db "A" ++ [mkRecord "foo" 0 (crc_len [x01])] /\
   members db2 "B" = members empty_db "B" ++ [mkRecord "foo" 0 (crc_len [x01])]).
Proof.
  split.
  - split; [reflexivity|split; [discriminate|split; reflexivity]].
  - apply (dedup_identity crc_len empty_db "foo" [x01] [x02] "A" "B");
      [reflexivity|discriminate|reflexivity|reflexivity].
Defined.

(** C1 as stated fails: the same content inserted from two DGOs leaves
    one entry whose reference count is 1, not 2. *)
Lemma dedup_reference_count_one :
  variants (insert_all crc_len empty_db [("foo", [x01], "A"); ("foo", [x01], "B")]) "foo" =
  [mkData (mkRecord "foo" 0 1) [x01] 1].
Proof. vm_compute. reflexivity. Qed.

Lemma new_variant_version_witness :
  let db := insert_all crc_len empty_db [("foo", [x01], "A")] in
  (forall e, e ∈ variants db "foo" -> ~ matches (length [x01; x02]) (crc_len [x01; x02]) e) /\
  (let r := mkRecord "foo" (length (variants db "foo")) (crc_len [x01; x02]) in
   let db' := add_obj_from_dgo crc_len db "foo" [x01; x02] "B" in
   variants db' "foo" = variants db "foo" ++ [mkData r [x01; x02] default_reference_count] /\
   (forall ops k, record <$> variants db' k `prefix_of`
                  record <$> variants (insert_all crc_len db' ops) k) /\
   (forall e, e ∈ variants db "foo" -> to_unique_name (record e) <> to_unique_name r)).
Proof.
  assert (Hnm : forall e, e ∈ variants (insert_all crc_len empty_db [("foo", [x01], "A")]) "foo" ->
            ~ matches (length [x01; x02]) (crc_len [x01; x02]) e).
  { intros e He. vm_compute in He. apply list_elem_of_singleton in He. subst e.
    unfold matches. simpl. intros [H _]. discriminate H. }
  split; [exact Hnm|].
  exact (new_variant_version crc_len [("foo", [x01], "A")] "foo" [x01; x02] "B" Hnm).
Defined.

Lemma duplicate_insert_frame_witness :
  let db := insert_all crc_len empty_db [("foo", [x01], "A")] in
  (exists e, e ∈ variants db "foo" /\ matches (length [x02]) (crc_len [x02]) e) /\
  (exists i e,
    variants db "foo" !! i = Some e /\ matches (length [x02]) (crc_len [x02]) e /\
    variants (add_obj_from_dgo crc_len db "foo" [x02] "B") "foo" =
      <[i := mkData (record e) (data e) (S (reference_count e))]> (variants db "foo") /\
    (forall j, j <> i -> variants (add_obj_from_dgo crc_len db "foo" [x02] "B") "foo" !! j
                        = variants db "foo" !! j) /\
    (forall k, k <> "foo" -> obj_files_by_name (add_obj_from_dgo crc_len db "foo" [x02] "B") !! k
                          = obj_files_by_name db !! k) /\
    members (add_obj_from_dgo crc_len db "foo" [x02] "B") "B" = members db "B" ++ [record e] /\
    (forall d', d' <> "B" -> members (add_obj_from_dgo crc_len db "foo" [x02] "B") d'
                           = members db d') /\
    obj_file_order (add_obj_from_dgo crc_len db "foo" [x02] "B") = obj_file_order db /\
    unique_obj_files (stats (add_obj_from_dgo crc_len db "foo" [x02] "B"))
      = unique_obj_files (stats db) /\
    unique_obj_bytes (stats (add_obj_from_dgo crc_len db "foo" [x02] "B"))
      = unique_obj_bytes (stats db) /\
    total_dgo_bytes (stats (add_obj_from_dgo crc_len db "foo" [x02] "B"))
      = total_dgo_bytes (stats db) /\
    total_obj_files (stats (add_obj_from_dgo crc_len db "foo" [x02] "B"))
      = u32_add (total_obj_files (stats db)) 1 /\
    entry_count (add_obj_from_dgo crc_len db "foo" [x02] "B") = entry_count db).
Proof.
  assert (Hex : exists e, e ∈ variants (insert_all crc_len empty_db [("foo", [x01], "A")]) "foo"
                  /\ matches (length [x02]) (crc_len [x02]) e).
  { exists (mkData (mkRecord "foo" 0 1) [x01] 0). split.
    - vm_compute. left.
    - unfold matches. simpl. split; reflexivity. }
  split; [exact Hex|].
  exact (duplicate_insert_frame crc_len _ "foo" [x02] "B" Hex).
Defined.

(** 2^32 insertions of one empty object from one DGO. *)
Definition wrap_ops : list (string * list byte * string) :=
  repeat ("foo", [], "A") (Z.to_nat (2 ^ 32)).

Lemma length_wrap_ops : Z.of_nat (length wrap_ops) = (2 ^ 32)%Z.
Proof. unfold wrap_ops. rewrite repeat_length, Z2Nat.id by lia. reflexivity. Qed.

(** C4 as stated fails: after 2^32 insertions the 32-bit
    [total_obj_files] has wrapped to 0. *)
Lemma statistics_total_wraps :
  Z.of_nat (length wrap_ops) = (2 ^ 32)%Z /\
  total_obj_files (stats (insert_all crc_len empty_db wrap_ops)) = 0%Z.
Proof.
  destruct (insert_all_counts_empty crc_len wrap_ops) as (Hm & Ht & _).
  split; [exact length_wrap_ops|]. rewrite Ht, Hm, length_wrap_ops. reflexivity.
Qed.

(** C9 as stated fails: after 2^32 insertions the DGO list holds 2^32
    records while [total_obj_files] is 0. *)
Lemma membership_total_wraps :
  Z.of_nat (member_count (insert_all crc_len empty_db wrap_ops)) = (2 ^ 32)%Z /\
  total_obj_files (stats (insert_all crc_len empty_db wrap_ops)) = 0%Z.
Proof.
  destruct (insert_all_counts_empty crc_len wrap_ops) as (Hm & Ht & _).
  rewrite Ht, Hm, length_wrap_ops. split; reflexivity.
Qed.

(* ================================================================= *)
(** * Properties of the decompression loop *)

Lemma write_out_length out off bs out' :
  write_out out off bs = Ok out' -> length out' = length out.
Proof.
  unfold write_out. destruct (Nat.leb_spec (off + length bs) (length out)); [|discriminate].
  intros [= <-]. rewrite !length_app, length_take, length_drop. lia.
Qed.

Section DecompressFacts.

Variable lzo1x_decompress : list byte -> option (list byte).

Lemma decompress_block_length inp c pos off out out' pos' off' :
  decompress_block lzo1x_decompress inp c pos off out = Ok (out', pos', off') ->
  length out' = length out.
Proof.
  unfold decompress_block.
  destruct (Z.ltb _ _).
  - destruct (_ <=? _); [|discriminate].
    destruct (lzo1x_decompress _) as [bs|]; [|discriminate].
    destruct (write_out out off bs) eqn:Hw; simpl; [|discriminate].
    intros [= <- _ _]. by apply write_out_length in Hw.
  - destruct (_ <=? _); [|discriminate].
    destruct (write_out _ _ _) eqn:Hw; simpl; [|discriminate].
    intros [= <- _ _]. by apply write_out_length in Hw.
Qed.

Lemma decompress_loop_length fuel inp sz pos off out out' :
  decompress_loop lzo1x_decompress fuel inp sz pos off out = Ok out' ->
  length out' = length out.
Proof.
  revert pos off out. induction fuel as [|fuel IH]; intros pos off out; simpl; [discriminate|].
  destruct (next_chunk_size _ _ _) as [[c pos1]|]; simpl; [|discriminate].
  destruct (decompress_block _ _ _ _ _ _) as [[[o p] f]|] eqn:Hb; simpl; [|discriminate].
  apply decompress_block_length in Hb.
  destruct (sz <=? f).
  - intros [= <-]. done.
  - destruct (_ <=? _); [|discriminate]. intros H. rewrite (IH _ _ _ H). done.
Qed.

Lemma decompress_block_literal inp c c' pos off out :
  (Z.of_nat MAX_CHUNK_SIZE <= c)%Z -> (Z.of_nat MAX_CHUNK_SIZE <= c')%Z ->
  decompress_block lzo1x_decompress inp c pos off out =
  decompress_block lzo1x_decompress inp c' pos off out.
Proof.
  intros Hc Hc'. unfold decompress_block.
  rewrite (proj2 (Z.ltb_ge c _) Hc), (proj2 (Z.ltb_ge c' _) Hc'). reflexivity.
Qed.

(** A literal block copies the [MAX_CHUNK_SIZE] input bytes at [pos]
    verbatim to [output_offset] and advances both cursors by
    [MAX_CHUNK_SIZE], when both fit. *)
Lemma decompress_block_literal_copy inp c pos off out :
  (Z.of_nat MAX_CHUNK_SIZE <= c)%Z ->
  pos + MAX_CHUNK_SIZE <= length inp -> off + MAX_CHUNK_SIZE <= length out ->
  decompress_block lzo1x_decompress inp c pos off out =
  Ok (take off out ++ take MAX_CHUNK_SIZE (drop pos inp) ++ drop (off + MAX_CHUNK_SIZE) out,
      pos + MAX_CHUNK_SIZE, off + MAX_CHUNK_SIZE).
Proof.
  intros Hc Hin Hout. unfold decompress_block.
  rewrite (proj2 (Z.ltb_ge c _) Hc), (proj2 (Nat.leb_le _ _) Hin). simpl.
  unfold write_out. rewrite length_take, length_drop.
  replace (Nat.min MAX_CHUNK_SIZE (length inp - pos)) with MAX_CHUNK_SIZE by lia.
  by rewrite (proj2 (Nat.leb_le _ _) Hout).
Qed.

End DecompressFacts.

(** An LZO stand-in for stored blocks: a block decodes to itself. *)
Definition stored_lzo (bs : list byte) : option (list byte) := Some bs.

(** A compressed DGO: total size 4, one 4-byte block. *)
Definition small_dgo : list byte :=
  jak2_header ++ [x04; x00; x00; x00] ++ [x04; x00; x00; x00] ++ [x61; x62; x63; x64].

(** A literal block of exactly 0x8000 bytes (nominal size 0xffff), zero
    padding words, then a compressed block of 8 bytes: 0x8008 bytes. *)
Definition literal_then_block_dgo : list byte :=
  jak2_header ++ [x08; x80; x00; x00] ++ [xff; xff; x00; x00] ++ repeat x01 MAX_CHUNK_SIZE
  ++ [x00; x00; x00; x00; x00; x00; x00; x00] ++ [x08; x00; x00; x00] ++ repeat x02 8.

Definition ok_with (r : result (list byte)) (l : list byte) : bool :=
  match r with Ok o => bool_decide (o = l) | Err _ => false end.

Example literal_then_block_ok :
  ok_with (decompress stored_lzo literal_then_block_dgo)
          (repeat x01 MAX_CHUNK_SIZE ++ repeat x02 8) = true.
Proof. vm_compute. reflexivity. Qed.

(** The scenario of the spec: total size 40, a literal chunk, a padding
    word, then an 8-byte compressed chunk. *)
Definition scenario_dgo : list byte :=
  jak2_header ++ [x28; x00; x00; x00] ++ [x00; x80; x00; x00] ++ repeat x01 MAX_CHUNK_SIZE
  ++ [x00; x00; x00; x00] ++ [x08; x00; x00; x00] ++ repeat x02 8.

(* ================================================================= *)
(** ** Claims about the decompression loop *)

(** C5, as stated, fails on the spec's own scenario: with a total size
    of 40 the 0x8000-byte literal copy does not fit in the output
    vector, and the loop never yields a 40-byte buffer. *)
Lemma decompress_scenario_not_40 :
  decompress stored_lzo scenario_dgo = Err OutputOverrun.
Proof. vm_compute. reflexivity. Qed.

(** C5 (amended: output size).  When decompression finishes (no block
    has been written past the end of the output vector, no read has
    left the input), its result has exactly [decompressed_size] bytes,
    the size word after "oZlB"; and a chunk size of 0x8000 or more
    always means one literal block, whatever its value: the same step
    for any two such values, and, when input and output have room,
    exactly 0x8000 input bytes copied verbatim at [output_offset], with
    both cursors advanced by 0x8000. *)
Theorem decompress_output_size lzo inp sz out :
  read_u32 inp 4 = Some sz ->
  decompress lzo inp = Ok out ->
  length out = Z.to_nat sz /\
  (forall c c' pos off o,
     (Z.of_nat MAX_CHUNK_SIZE <= c)%Z -> (Z.of_nat MAX_CHUNK_SIZE <= c')%Z ->
     decompress_block lzo inp c pos off o = decompress_block lzo inp c' pos off o) /\
  (forall c pos off o,
     (Z.of_nat MAX_CHUNK_SIZE <= c)%Z ->
     pos + MAX_CHUNK_SIZE <= length inp -> off + MAX_CHUNK_SIZE <= length o ->
     decompress_block lzo inp c pos off o =
     Ok (take off o ++ take MAX_CHUNK_SIZE (drop pos inp) ++ drop (off + MAX_CHUNK_SIZE) o,
         pos + MAX_CHUNK_SIZE, off + MAX_CHUNK_SIZE)).
Proof.
  intros Hsz Hd. split; [|split].
  - unfold decompress in Hd. rewrite Hsz in Hd.
    apply decompress_loop_length in Hd. by rewrite Hd, repeat_length.
  - intros. by apply decompress_block_literal.
  - intros. by apply decompress_block_literal_copy.
Qed.

(** A run through the literal branch: a 0x8000-byte literal block
    (nominal size 0xffff), padding words, then an 8-byte block. *)
Lemma decompress_output_size_witness :
  (read_u32 literal_then_block_dgo 4 = Some 32776%Z /\
   decompress stored_lzo literal_then_block_dgo =
     Ok (repeat x01 MAX_CHUNK_SIZE ++ repeat x02 8)) /\
  (length (repeat x01 MAX_CHUNK_SIZE ++ repeat x02 8) = Z.to_nat 32776 /\
   (forall c c' pos off o,
      (Z.of_nat MAX_CHUNK_SIZE <= c)%Z -> (Z.of_nat MAX_CHUNK_SIZE <= c')%Z ->
      decompress_block stored_lzo literal_then_block_dgo c pos off o =
      decompress_block stored_lzo literal_then_block_dgo c' pos off o) /\
   (forall c pos off o,
      (Z.of_nat MAX_CHUNK_SIZE <= c)%Z ->
      pos + MAX_CHUNK_SIZE <= length literal_then_block_dgo ->
      off + MAX_CHUNK_SIZE <= length o ->
      decompress_block stored_lzo literal_then_block_dgo c pos off o =
      Ok (take off o ++ take MAX_CHUNK_SIZE (drop pos literal_then_block_dgo) ++
            drop (off + MAX_CHUNK_SIZE) o,
          pos + MAX_CHUNK_SIZE, off + MAX_CHUNK_SIZE))).
Proof.
  assert (H1 : read_u32 literal_then_block_dgo 4 = Some 32776%Z) by (vm_compute; reflexivity).
  assert (H2 : decompress stored_lzo literal_then_block_dgo =
                 Ok (repeat x01 MAX_CHUNK_SIZE ++ repeat x02 8))
    by exact (eq_refl (Ok (repeat x01 MAX_CHUNK_SIZE ++ repeat x02 8)) <:
                decompress stored_lzo literal_then_block_dgo =
                Ok (repeat x01 MAX_CHUNK_SIZE ++ repeat x02 8)).
  split; [split; [exact H1|exact H2]|].
  exact (decompress_output_size stored_lzo literal_then_block_dgo 32776 _ H1 H2).
Defined.

(** C10 (write bounds).  A chunk size of 0x8000 or more copies 0x8000
    bytes at [output_offset] without looking at the room left: whenever
    fewer than 0x8000 bytes of the output vector remain, the copy runs
    past its end. *)
Theorem literal_block_overrun lzo inp c pos off out :
  (Z.of_nat MAX_CHUNK_SIZE <= c)%Z ->
  pos + MAX_CHUNK_SIZE <= length inp ->
  length out < off + MAX_CHUNK_SIZE ->
  decompress_block lzo inp c pos off out = Err OutputOverrun.
Proof.
  intros Hc Hin Hout. unfold decompress_block.
  rewrite (proj2 (Z.ltb_ge c _) Hc).
  rewrite (proj2 (Nat.leb_le _ _) Hin). simpl.
  unfold write_out. rewrite length_take, length_drop.
  replace (Nat.min MAX_CHUNK_SIZE (length inp - pos)) with MAX_CHUNK_SIZE by lia.
  by rewrite (proj2 (Nat.leb_gt _ _) Hout).
Qed.

(** The spec's scenario: the first block, a literal chunk at offset 0 of
    the 40-byte vector. *)
Lemma literal_block_overrun_witness :
  ((Z.of_nat MAX_CHUNK_SIZE <= 32768)%Z /\ 12 + MAX_CHUNK_SIZE <= length scenario_dgo /\
   length (repeat x00 40) < 0 + MAX_CHUNK_SIZE) /\
  decompress_block stored_lzo scenario_dgo 32768 12 0 (repeat x00 40) = Err OutputOverrun.
Proof.
  assert (H1 : (Z.of_nat MAX_CHUNK_SIZE <= 32768)%Z) by (apply Z.leb_le; vm_compute; reflexivity).
  assert (H2 : 12 + MAX_CHUNK_SIZE <= length scenario_dgo)
    by (apply Nat.leb_le; vm_compute; reflexivity).
  assert (H3 : length (repeat x00 40) < 0 + MAX_CHUNK_SIZE)
    by (apply Nat.ltb_lt; vm_compute; reflexivity).
  split; [split; [exact H1|split; [exact H2|exact H3]]|].
  exact (literal_block_overrun stored_lzo scenario_dgo 32768 12 0 (repeat x00 40) H1 H2 H3).
Defined.

(* ================================================================= *)
(** * Properties of the container parser *)

(** A DGO header as laid out in the file: 4 size bytes, 60 name bytes,
    with only zero bytes after the name's terminator. *)
Definition wf_header (size4 name60 : list byte) : Prop :=
  length size4 = 4 /\ length name60 = 60 /\ empty_after name60 = true.

(** One object as laid out in the file: its header, then its bytes. *)
Definition encode_obj (o : list byte * list byte * list byte) : list byte :=
  let '(size4, name60, content) := o in size4 ++ name60 ++ content.

Definition wf_obj (o : list byte * list byte * list byte) : Prop :=
  let '(size4, name60, content) := o in
  wf_header size4 name60 /\ le32 size4 = Z.of_nat (length content).

(** What [add_obj_from_dgo] receives for an object. *)
Definition parsed_obj (o : list byte * list byte * list byte) : string * list byte :=
  let '(_, name60, content) := o in (to_str name60, content).

Lemma read_header_app size4 name60 r :
  length size4 = 4 -> length name60 = 60 ->
  read_header (size4 ++ name60 ++ r) = Some (le32 size4, name60, r).
Proof.
  intros H4 H60. unfold read_header.
  rewrite (proj2 (Nat.leb_le _ _)) by (rewrite !length_app; lia).
  rewrite take_app_length' by done.
  rewrite drop_app_length' by done.
  rewrite take_app_length' by done.
  replace 64 with (length size4 + length name60) by lia.
  rewrite <- drop_drop, drop_app_length, drop_app_length. reflexivity.
Qed.

Lemma parse_objs_wf objs k r :
  Forall wf_obj objs ->
  parse_objs (length objs + k) (concat (map encode_obj objs) ++ r) =
  bind (parse_objs k r) (fun os => Ok (map parsed_obj objs ++ os)).
Proof.
  induction objs as [|[[s4 nm] c] objs IH]; intros Hwf; simpl.
  - by destruct (parse_objs k r).
  - apply Forall_cons in Hwf as [[(H4 & H60 & He) Hsz] Hwf].
    rewrite <- !app_assoc, read_header_app by done. rewrite Hsz.
    rewrite (proj2 (Z.ltb_ge _ _)) by (rewrite length_app; lia).
    rewrite He. simpl. rewrite Nat2Z.id, drop_app_length, take_app_length, IH by done.
    by destruct (parse_objs k r).
Qed.

Lemma parse_dgo_header dgo_base_name size4 name60 body :
  wf_header size4 name60 -> to_str name60 = dgo_base_name ->
  parse_dgo dgo_base_name (size4 ++ name60 ++ body) = parse_objs (Z.to_nat (le32 size4)) body.
Proof.
  intros (H4 & H60 & He) Hn. unfold parse_dgo.
  rewrite read_header_app by done. rewrite Hn, String.eqb_refl, He. reflexivity.
Qed.

Lemma byte_eqb_spec a b : reflect (a = b) (Byte.eqb a b).
Proof.
  destruct (Byte.eqb a b) eqn:E; constructor;
    [by apply Byte.byte_dec_bl|by apply Byte.eqb_false].
Qed.

(** A name field with a nonzero byte after its first null terminator. *)
Definition malformed_name (name60 : list byte) : Prop :=
  exists l1 l2 b l3, name60 = l1 ++ [x00] ++ l2 ++ [b] ++ l3 /\ (x00 ∉ l1) /\ b <> x00.

Lemma malformed_name_rejected name60 :
  malformed_name name60 -> empty_after name60 = false.
Proof.
  intros (l1 & l2 & b & l3 & -> & Hl1 & Hb). unfold empty_after.
  induction l1 as [|a l1 IH]; simpl.
  - rewrite forallb_app. simpl.
    destruct (byte_eqb_spec b x00); [done|]. by rewrite andb_false_r.
  - rewrite not_elem_of_cons in Hl1. destruct Hl1 as [Ha Hl1].
    destruct (byte_eqb_spec a x00); [congruence|]. by apply IH.
Qed.

Lemma parse_objs_bad_header k size4 name60 r :
  length size4 = 4 -> length name60 = 60 ->
  parse_objs (S k) (size4 ++ name60 ++ r) =
  if Z.ltb (Z.of_nat (length r)) (le32 size4) then Err TruncatedObject
  else if negb (empty_after name60) then Err MalformedHeader
  else bind (parse_objs k (drop (Z.to_nat (le32 size4)) r))
            (fun objs => Ok ((to_str name60, take (Z.to_nat (le32 size4)) r) :: objs)).
Proof. intros H4 H60. simpl. by rewrite read_header_app. Qed.

(* ================================================================= *)
(** ** Claim about the container parser *)

(** C6 (container validation).  Take a DGO header [size4 ++ name60] that
    is well formed and names the file, followed by well-formed objects
    [objs].  (1) With a count of [length objs] and nothing after them the
    parse succeeds and hands over every object.  (2) Any byte after the
    last object fails with TrailingData.  (3) An object header after
    them whose size exceeds the bytes left fails with TruncatedObject.
    (4) An object header after them that fits but whose name field has a
    nonzero byte after its terminator fails with MalformedHeader, and
    (5) so does a DGO header naming the file with such a name field. *)
Theorem container_validation dgo_base_name size4 name60 objs :
  wf_header size4 name60 -> to_str name60 = dgo_base_name -> Forall wf_obj objs ->
  let body := concat (map encode_obj objs) in
  (le32 size4 = Z.of_nat (length objs) ->
   parse_dgo dgo_base_name (size4 ++ name60 ++ body) = Ok (map parsed_obj objs)) /\
  (forall rest, rest <> [] -> le32 size4 = Z.of_nat (length objs) ->
   parse_dgo dgo_base_name (size4 ++ name60 ++ body ++ rest) = Err TrailingData) /\
  (forall k s4 nm r, le32 size4 = Z.of_nat (length objs + S k) ->
   length s4 = 4 -> length nm = 60 -> (Z.of_nat (length r) < le32 s4)%Z ->
   parse_dgo dgo_base_name (size4 ++ name60 ++ body ++ s4 ++ nm ++ r) = Err TruncatedObject) /\
  (forall k s4 nm r, le32 size4 = Z.of_nat (length objs + S k) ->
   length s4 = 4 -> length nm = 60 -> (le32 s4 <= Z.of_nat (length r))%Z -> malformed_name nm ->
   parse_dgo dgo_base_name (size4 ++ name60 ++ body ++ s4 ++ nm ++ r) = Err MalformedHeader) /\
  (forall s4 nm r, length s4 = 4 -> length nm = 60 -> to_str nm = dgo_base_name ->
   malformed_name nm -> parse_dgo dgo_base_name (s4 ++ nm ++ r) = Err MalformedHeader).
Proof.
  intros Hh Hn Hwf body. unfold body.
  split; [|split; [|split; [|split]]].
  - intros Hc. rewrite parse_dgo_header, Hc, Nat2Z.id by done.
    rewrite <- (app_nil_r (concat _)), <- (Nat.add_0_r (length objs)).
    rewrite parse_objs_wf by done. simpl. by rewrite app_nil_r.
  - intros rest Hr Hc. rewrite parse_dgo_header, Hc, Nat2Z.id by done.
    rewrite <- (Nat.add_0_r (length objs)), parse_objs_wf by done. simpl.
    destruct rest; [done|reflexivity].
  - intros k s4 nm r Hc H4 H60 Hlt. rewrite parse_dgo_header, Hc, Nat2Z.id by done.
    rewrite parse_objs_wf by done. rewrite parse_objs_bad_header by done.
    by rewrite (proj2 (Z.ltb_lt _ _) Hlt).
  - intros k s4 nm r Hc H4 H60 Hle Hm. rewrite parse_dgo_header, Hc, Nat2Z.id by done.
    rewrite parse_objs_wf by done. rewrite parse_objs_bad_header by done.
    rewrite (proj2 (Z.ltb_ge _ _) Hle), malformed_name_rejected by done. reflexivity.
  - intros s4 nm r H4 H60 Hn' Hm. unfold parse_dgo.
    rewrite read_header_app by done. rewrite Hn', String.eqb_refl.
    by rewrite malformed_name_rejected.
Qed.

(** A DGO "a" holding one object "b" of two bytes. *)
Definition ex_name_a : list byte := x61 :: repeat x00 59.
Definition ex_name_b : list byte := x62 :: repeat x00 59.
Definition ex_obj : list byte * list byte * list byte := ([x02; x00; x00; x00], ex_name_b, [x05; x06]).

Lemma container_validation_witness :
  (wf_header [x01; x00; x00; x00] ex_name_a /\ to_str ex_name_a = "a" /\ Forall wf_obj [ex_obj]) /\
  (let body := concat (map encode_obj [ex_obj]) in
  (le32 [x01; x00; x00; x00] = Z.of_nat (length [ex_obj]) ->
   parse_dgo "a" ([x01; x00; x00; x00] ++ ex_name_a ++ body) = Ok (map parsed_obj [ex_obj])) /\
  (forall rest, rest <> [] -> le32 [x01; x00; x00; x00] = Z.of_nat (length [ex_obj]) ->
   parse_dgo "a" ([x01; x00; x00; x00] ++ ex_name_a ++ body ++ rest) = Err TrailingData) /\
  (forall k s4 nm r, le32 [x01; x00; x00; x00] = Z.of_nat (length [ex_obj] + S k) ->
   length s4 = 4 -> length nm = 60 -> (Z.of_nat (length r) < le32 s4)%Z ->
   parse_dgo "a" ([x01; x00; x00; x00] ++ ex_name_a ++ body ++ s4 ++ nm ++ r) = Err TruncatedObject) /\
  (forall k s4 nm r, le32 [x01; x00; x00; x00] = Z.of_nat (length [ex_obj] + S k) ->
   length s4 = 4 -> length nm = 60 -> (le32 s4 <= Z.of_nat (length r))%Z -> malformed_name nm ->
   parse_dgo "a" ([x01; x00; x00; x00] ++ ex_name_a ++ body ++ s4 ++ nm ++ r) = Err MalformedHeader) /\
  (forall s4 nm r, length s4 = 4 -> length nm = 60 -> to_str nm = "a" ->
   malformed_name nm -> parse_dgo "a" (s4 ++ nm ++ r) = Err MalformedHeader)).
Proof.
  assert (H1 : wf_header [x01; x00; x00; x00] ex_name_a)
    by (split; [reflexivity|split; vm_compute; reflexivity]).
  assert (H2 : to_str ex_name_a = "a") by (vm_compute; reflexivity).
  assert (H3 : Forall wf_obj [ex_obj]).
  { constructor; [|constructor]. split; [split; [reflexivity|split; vm_compute; reflexivity]|].
    vm_compute. reflexivity. }
  split; [split; [exact H1|split; [exact H2|exact H3]]|].
  exact (container_validation "a" [x01; x00; x00; x00] ex_name_a [ex_obj] H1 H2 H3).
Defined.

(** Each check on concrete bytes. *)
Definition ex_dgo (count : list byte) (dgo_name : list byte) (obj_hdr : list byte)
    (tail : list byte) : list byte :=
  count ++ dgo_name ++ obj_hdr ++ tail.

Example parse_ok :
  parse_dgo "a" (ex_dgo [x01; x00; x00; x00] ex_name_a ([x02; x00; x00; x00] ++ ex_name_b) [x05; x06])
  = Ok [("b", [x05; x06])].
Proof. vm_compute. reflexivity. Qed.

Example parse_trailing :
  parse_dgo "a" (ex_dgo [x01; x00; x00; x00] ex_name_a ([x02; x00; x00; x00] ++ ex_name_b) [x05; x06; x07])
  = Err TrailingData.
Proof. vm_compute. reflexivity. Qed.

Example parse_truncated :
  parse_dgo "a" (ex_dgo [x01; x00; x00; x00] ex_name_a ([x03; x00; x00; x00] ++ ex_name_b) [x05; x06])
  = Err TruncatedObject.
Proof. vm_compute. reflexivity. Qed.

Example parse_malformed_obj :
  parse_dgo "a" (ex_dgo [x01; x00; x00; x00] ex_name_a
                   ([x02; x00; x00; x00] ++ x62 :: x00 :: x07 :: repeat x00 57) [x05; x06])
  = Err MalformedHeader.
Proof. vm_compute. reflexivity. Qed.

Example parse_malformed_dgo :
  parse_dgo "a" (ex_dgo [x01; x00; x00; x00] (x61 :: x00 :: x07 :: repeat x00 57)
                   ([x02; x00; x00; x00] ++ ex_name_b) [x05; x06])
  = Err MalformedHeader.
Proof. vm_compute. reflexivity. Qed.

(* ================================================================= *)
(** * The top-level segment step *)

Section TopLevelFacts.

Variable find_global_function_defs : LinkedObjectFile -> Function -> Function.

(** The object as the step leaves it when segment 2 holds [func]. *)
Definition named_top_level (ld : LinkedObjectFile) (func : Function) : LinkedObjectFile :=
  let func1 := set_guessed_name func "(top-level-init)" in
  let ld1 := mkLinked (segments ld) (<[2 := [func1]]> (functions_by_seg ld)) in
  mkLinked (segments ld) (<[2 := [find_global_function_defs ld1 func1]]> (functions_by_seg ld)).

Lemma top_level_step_Ok ld ld' :
  top_level_step find_global_function_defs ld = Ok ld' ->
  (segments ld <> 3 -> ld' = ld) /\
  (segments ld = 3 -> exists func, functions_by_seg ld !! 2 = Some [func] /\
                        guessed_name func = "" /\ ld' = named_top_level ld func).
Proof.
  unfold top_level_step, at_seg.
  destruct (Nat.eqb_spec (segments ld) 3) as [H3|H3].
  - destruct (functions_by_seg ld !! 2) as [fs|] eqn:Hs; simpl; [|discriminate].
    destruct fs as [|func [|]]; try discriminate.
    destruct (String.eqb_spec (guessed_name func) "") as [He|]; [|discriminate].
    intros [= <-]. split; [done|]. intros _. exists func. done.
  - intros [= <-]. split; [done|]. intros; contradiction.
Qed.

Lemma top_level_step_Err ld :
  segments ld = 3 -> length (default [] (functions_by_seg ld !! 2)) <> 1 ->
  exists e, top_level_step find_global_function_defs ld = Err e.
Proof.
  intros H3 Hl. unfold top_level_step, at_seg. rewrite H3. simpl.
  destruct (functions_by_seg ld !! 2) as [fs|]; simpl in *; [|eauto].
  destruct fs as [|f [|]]; simpl in *; [eauto|lia|eauto].
Qed.

(** C8 (top-level entry convention).  If the pass over the objects
    succeeds, every object with three segments had exactly one function
    in segment 2, with an empty guessed name, and that function is named
    "(top-level-init)" before [find_global_function_defs] runs on it;
    every other object is unchanged.  If some object has three segments
    and segment 2 does not hold exactly one function, the pass fails. *)
Theorem top_level_init_convention objs :
  (forall objs', top_level_pass find_global_function_defs objs = Ok objs' ->
     length objs' = length objs /\
     forall i ld, objs !! i = Some ld ->
       (segments ld <> 3 -> objs' !! i = Some ld) /\
       (segments ld = 3 -> exists func, functions_by_seg ld !! 2 = Some [func] /\
          guessed_name func = "" /\ objs' !! i = Some (named_top_level ld func))) /\
  ((exists ld, ld ∈ objs /\ segments ld = 3 /\
               length (default [] (functions_by_seg ld !! 2)) <> 1) ->
   exists e, top_level_pass find_global_function_defs objs = Err e).
Proof.
  split.
  - induction objs as [|ld objs IH]; intros objs' H; simpl in H.
    + injection H as <-. split; [done|]. intros i ld' Hi. by rewrite lookup_nil in Hi.
    + destruct (top_level_step _ ld) as [ld'|] eqn:Hs; simpl in H; [|discriminate].
      destruct (top_level_pass _ objs) as [rest'|] eqn:Hp; simpl in H; [|discriminate].
      injection H as <-. destruct (IH rest' eq_refl) as [Hlen Hall].
      split; [simpl; lia|].
      intros [|i] ld0 Hi; simpl in Hi.
      * injection Hi as <-. apply top_level_step_Ok in Hs as [Hn H3].
        split; [intros Hne; by rewrite (Hn Hne)|].
        intros Hseg. destruct (H3 Hseg) as (func & ? & ? & ->). eauto.
      * exact (Hall i ld0 Hi).
  - intros (ld & Hin & H3 & Hl). induction objs as [|ld1 objs IH]; simpl.
    + inversion Hin.
    + apply elem_of_cons in Hin as [<-|Hin].
      * destruct (top_level_step_Err ld H3 Hl) as [e He]. rewrite He. simpl. eauto.
      * destruct (top_level_step _ ld1); simpl; [|eauto].
        destruct (IH Hin) as [e He]. rewrite He. simpl. eauto.
Qed.

End TopLevelFacts.

Example top_level_example :
  top_level_pass (fun _ f => f)
    [mkLinked 3 [[]; []; [mkFunction 0 4 ""]]; mkLinked 2 [[]; []]]
  = Ok [mkLinked 3 [[]; []; [mkFunction 0 4 "(top-level-init)"]]; mkLinked 2 [[]; []]].
Proof. reflexivity. Qed.

Example top_level_two_functions :
  top_level_pass (fun _ f => f) [mkLinked 3 [[]; []; [mkFunction 0 4 ""; mkFunction 4 8 ""]]]
  = Err InvariantViolation.
Proof. reflexivity. Qed.

(* ================================================================= *)
(** * Unique names and the dump file names *)

From Stdlib Require Import Ascii.

(** Whether a string contains the character '-'. *)
Fixpoint has_dash (s : string) : bool :=
  match s with
  | EmptyString => false
  | String c s' => Ascii.eqb c "-"%char || has_dash s'
  end.

Lemma has_dash_app s t : has_dash (String.append s t) = has_dash s || has_dash t.
Proof. induction s as [|c s IH]; simpl; [done|]. by rewrite IH, orb_assoc. Qed.

Lemma has_dash_pretty_N_go x s : has_dash (pretty_N_go x s) = has_dash s.
Proof.
  revert s. induction (N.lt_wf_0 x) as [x _ IH]; intros s.
  assert (x = 0 \/ 0 < x)%N as [->|?] by lia; [by rewrite pretty_N_go_0|].
  rewrite pretty_N_go_step by done. rewrite IH by (by apply N.div_lt).
  simpl. unfold pretty_N_char. by repeat case_match.
Qed.

(** [std::to_string] of an unsigned value has no '-'. *)
Lemma has_dash_pretty (x : N) : has_dash (pretty x) = false.
Proof.
  unfold pretty, pretty_N. case_decide; [done|]. by rewrite has_dash_pretty_N_go.
Qed.

(** Splitting at the last "-v": the suffixes have no '-'. *)
Lemma string_append_nil (s : string) : String.append "" s = s.
Proof. reflexivity. Qed.

Lemma string_append_cons c (s t : string) :
  String.append (String c s) t = String c (String.append s t).
Proof. reflexivity. Qed.

Lemma split_dash_v n1 n2 d1 d2 :
  has_dash d1 = false -> has_dash d2 = false ->
  String.append n1 (String.append "-v" d1) = String.append n2 (String.append "-v" d2) ->
  n1 = n2 /\ d1 = d2.
Proof.
  intros H1 H2. revert n2. induction n1 as [|c n1 IH]; intros [|c' n2] E;
    rewrite ?string_append_nil, ?string_append_cons in E.
  - injection E as E. split; [done|exact E].
  - injection E as <- E. apply (f_equal has_dash) in E.
    rewrite !has_dash_app in E. simpl in E. rewrite string_append_nil, H1, orb_true_r in E. discriminate.
  - injection E as -> E. apply (f_equal has_dash) in E.
    rewrite !has_dash_app in E. simpl in E. rewrite string_append_nil, H2, orb_true_r in E. discriminate.
  - injection E as <- E. destruct (IH _ E) as [-> ->]. done.
Qed.

Lemma to_unique_name_inj_full r1 r2 :
  to_unique_name r1 = to_unique_name r2 -> name r1 = name r2 /\ version r1 = version r2.
Proof.
  unfold to_unique_name. intros E.
  apply split_dash_v in E as [? E]; [|apply has_dash_pretty..].
  apply pretty_N_inj in E. split; [done|lia].
Qed.

Lemma string_length_append (s t : string) :
  String.length (String.append s t) = String.length s + String.length t.
Proof. induction s as [|c s IH]; simpl; [done|]. by rewrite IH. Qed.

Lemma string_app_inj_r (s1 s2 t : string) :
  String.append s1 t = String.append s2 t -> s1 = s2.
Proof.
  intros E. assert (Hl : String.length s1 = String.length s2).
  { apply (f_equal String.length) in E. rewrite !string_length_append in E. lia. }
  revert s2 E Hl. induction s1 as [|c s1 IH]; intros [|c' s2]; simpl;
    try discriminate; [done|]. intros [= -> E] [= Hl]. by rewrite (IH s2).
Qed.

(** The file name part of [combine_path(output_dir, to_unique_name() + ext)]
    in [write_object_file_words] (ext ".txt") and [write_disassembly]
    (ext ".func"). *)
Definition dump_file_name (r : ObjectFileRecord) (ext : string) : string :=
  String.append (to_unique_name r) ext.

(** The test of [find_code] that decides whether
    [process_fp_relative_links] runs on an object. *)
Definition runs_fp_relative_links (game_version : Z) (r : ObjectFileRecord) : bool :=
  Z.eqb game_version 1 || negb (String.eqb (to_unique_name r) "effect-control-v0").

(* ================================================================= *)
(** * The constructor [ObjectFileDB::ObjectFileDB] *)

(** [for (auto& dgo : _dgos) get_objs_from_dgo(dgo);] over the files,
    each given by its base name and its bytes; the first failing file
    ends the run. *)
Fixpoint load_dgos (crc32 : list byte -> Z)
    (lzo1x_decompress : list byte -> option (list byte))
    (db : ObjectFileDB) (dgos : list (string * list byte)) : result ObjectFileDB :=
  match dgos with
  | [] => Ok db
  | (dgo, bytes) :: rest =>
      bind (get_objs_from_dgo crc32 lzo1x_decompress db dgo bytes)
           (fun db' => load_dgos crc32 lzo1x_decompress db' rest)
  end.

Definition ObjectFileDB_init (crc32 : list byte -> Z)
    (lzo1x_decompress : list byte -> option (list byte))
    (dgos : list (string * list byte)) : result ObjectFileDB :=
  load_dgos crc32 lzo1x_decompress empty_db dgos.

(** The bytes [get_objs_from_dgo] parses: the file itself, or its
    decompressed contents for an oZlB file. *)
Definition dgo_payload (lzo1x_decompress : list byte -> option (list byte))
    (file_data : list byte) : result (list byte) :=
  if is_jak2 file_data then decompress lzo1x_decompress file_data else Ok file_data.

Definition dgo_ops (dgo : string) (objs : list (string * list byte))
  : list (string * list byte * string) :=
  map (fun '(n, b) => (n, b, dgo)) objs.

Lemma get_objs_from_dgo_Ok crc32 lzo db dgo bytes db' :
  get_objs_from_dgo crc32 lzo db dgo bytes = Ok db' ->
  exists dgo_data objs,
    dgo_payload lzo bytes = Ok dgo_data /\ parse_dgo dgo dgo_data = Ok objs /\
    db' = insert_all crc32
            (mkDB (obj_files_by_name db) (obj_files_by_dgo db) (obj_file_order db)
                  (mkStats (u32_add (total_dgo_bytes (stats db)) (Z.of_nat (length bytes)))
                           (total_obj_files (stats db))
                           (unique_obj_files (stats db)) (unique_obj_bytes (stats db))))
            (dgo_ops dgo objs).
Proof.
  unfold get_objs_from_dgo, dgo_payload.
  destruct (if is_jak2 bytes then _ else _) as [dd|] eqn:Hd; simpl; [|discriminate].
  destruct (parse_dgo dgo dd) as [objs|] eqn:Hp; simpl; [|discriminate].
  intros [= <-]. by exists dd, objs.
Qed.

Lemma Inv_stats db st :
  Inv db -> Inv (mkDB (obj_files_by_name db) (obj_files_by_dgo db) (obj_file_order db) st).
Proof. done. Qed.

Lemma insert_all_total_dgo_bytes crc32 db ops :
  total_dgo_bytes (stats (insert_all crc32 db ops)) = total_dgo_bytes (stats db).
Proof.
  revert db. induction ops as [|[[n b] d] ops IH]; intros db; simpl; [done|].
  by rewrite IH, add_total_dgo_bytes.
Qed.

(** The invariant of the loaded databases: each counter is its count
    reduced to 32 bits. *)
Definition Loaded (crc32 : list byte -> Z) (db : ObjectFileDB) : Prop :=
  Inv db /\
  unique_obj_files (stats db) = u32 (Z.of_nat (entry_count db)) /\
  unique_obj_bytes (stats db) = u32 (Z.of_nat (entry_bytes db)) /\
  total_obj_files (stats db) = u32 (Z.of_nat (member_count db)) /\
  entry_count db <= member_count db /\
  (0 <= total_dgo_bytes (stats db) < 2 ^ 32)%Z.

Lemma Loaded_empty crc32 : Loaded crc32 empty_db.
Proof.
  split; [apply Inv_empty|]. unfold entry_count, entry_bytes, member_count; simpl.
  rewrite !map_sum_empty. repeat split; done || lia.
Qed.

Lemma Loaded_get_objs crc32 lzo db dgo bytes db' :
  Loaded crc32 db -> get_objs_from_dgo crc32 lzo db dgo bytes = Ok db' ->
  Loaded crc32 db' /\
  total_dgo_bytes (stats db') = u32_add (total_dgo_bytes (stats db)) (Z.of_nat (length bytes)).
Proof.
  intros (HI & Hu & Hb & Ht & Hle & _) (dd & objs & _ & _ & ->)%get_objs_from_dgo_Ok.
  rewrite insert_all_total_dgo_bytes. split; [|done].
  set (db1 := mkDB _ _ _ _).
  destruct (insert_all_counts crc32 db1 (dgo_ops dgo objs)) as (H1 & H2 & H3 & H4 & H5);
    [exact Ht|exact Hu|exact Hb|].
  split; [apply Inv_insert_all, Inv_stats, HI|].
  split; [done|split; [done|split; [done|split]]].
  - unfold entry_count, member_count in *. simpl in *. lia.
  - rewrite insert_all_total_dgo_bytes. apply u32_range.
Qed.

Lemma Loaded_load_dgos crc32 lzo db dgos db' :
  Loaded crc32 db -> load_dgos crc32 lzo db dgos = Ok db' ->
  Loaded crc32 db' /\
  total_dgo_bytes (stats db') =
    u32 (total_dgo_bytes (stats db) + Z.of_nat (sum_list_with (fun f => length (snd f)) dgos)).
Proof.
  revert db. induction dgos as [|[dgo bytes] dgos IH]; intros db HL; simpl.
  - intros [= <-]. split; [done|]. destruct HL as (_ & _ & _ & _ & _ & Hr).
    rewrite u32_small; lia.
  - destruct (get_objs_from_dgo crc32 lzo db dgo bytes) as [db1|] eqn:Hg; simpl; [|discriminate].
    intros Hl. destruct (Loaded_get_objs crc32 lzo db dgo bytes db1 HL Hg) as [HL1 Ht1].
    destruct (IH db1 HL1 Hl) as [? ->]. split; [done|].
    rewrite Ht1. unfold u32_add, u32. rewrite Zplus_mod_idemp_l. f_equal. lia.
Qed.

Lemma Loaded_init crc32 lzo dgos db :
  ObjectFileDB_init crc32 lzo dgos = Ok db ->
  Loaded crc32 db /\
  total_dgo_bytes (stats db) = u32 (Z.of_nat (sum_list_with (fun f => length (snd f)) dgos)).
Proof.
  intros H. destruct (Loaded_load_dgos crc32 lzo empty_db dgos db (Loaded_empty crc32) H)
    as [? ->]. split; [done|]. done.
Qed.

(* ================================================================= *)
(** * Further properties *)

(** X1.  After the constructor has loaded a list of DGO files without
    failure, each 32-bit counter is its count modulo 2^32:
    [total_dgo_bytes] the sum of the file sizes as read from disk (the
    compressed size for an oZlB file), [total_obj_files] the total
    length of the per-DGO lists, [unique_obj_files] and
    [unique_obj_bytes] the number and the total size of the stored
    entries.  There are never more stored entries than list members,
    and while the lists hold fewer than 2^32 records,
    [unique_obj_files <= total_obj_files]. *)
Theorem init_statistics crc32 lzo dgos db :
  ObjectFileDB_init crc32 lzo dgos = Ok db ->
  total_dgo_bytes (stats db) = u32 (Z.of_nat (sum_list_with (fun f => length (snd f)) dgos)) /\
  total_obj_files (stats db) = u32 (Z.of_nat (member_count db)) /\
  unique_obj_files (stats db) = u32 (Z.of_nat (entry_count db)) /\
  unique_obj_bytes (stats db) = u32 (Z.of_nat (entry_bytes db)) /\
  entry_count db <= member_count db /\
  ((Z.of_nat (member_count db) < 2 ^ 32)%Z ->
   (unique_obj_files (stats db) <= total_obj_files (stats db))%Z).
Proof.
  intros H. destruct (Loaded_init crc32 lzo dgos db H) as [(_ & Hu & Hb & Ht & Hle & _) Hd].
  do 5 (split; [done|]). intros Hlt. rewrite Hu, Ht, !u32_small by lia. lia.
Qed.

(** X2.  In a database built by the constructor, two stored entries
    with the same dump file name (unique name plus extension, as used by
    [write_object_file_words] with ".txt" and [write_disassembly] with
    ".func") are the same entry: same name key, same index.  No two
    dumps overwrite each other. *)
Theorem dump_file_names_distinct crc32 lzo dgos db ext n1 n2 l1 l2 i1 i2 e1 e2 :
  ObjectFileDB_init crc32 lzo dgos = Ok db ->
  obj_files_by_name db !! n1 = Some l1 -> l1 !! i1 = Some e1 ->
  obj_files_by_name db !! n2 = Some l2 -> l2 !! i2 = Some e2 ->
  dump_file_name (record e1) ext = dump_file_name (record e2) ext ->
  n1 = n2 /\ i1 = i2.
Proof.
  intros H Hn1 Hi1 Hn2 Hi2 E.
  destruct (Loaded_init crc32 lzo dgos db H) as [((Hl & _) & _) _].
  apply string_app_inj_r, to_unique_name_inj_full in E as [En Ev].
  destruct (proj2 (Hl n1 l1 Hn1) i1 e1 Hi1) as [<- <-].
  destruct (proj2 (Hl n2 l2 Hn2) i2 e2 Hi2) as [<- <-].
  done.
Qed.

(** X3.  [find_code] skips [process_fp_relative_links] exactly for the
    object named "effect-control" at version 0, and only when the game
    version is not 1: no other name or version produces the unique name
    "effect-control-v0". *)
Theorem fp_relative_links_skip gv r :
  runs_fp_relative_links gv r = false <->
  gv <> 1%Z /\ name r = "effect-control" /\ version r = 0.
Proof.
  unfold runs_fp_relative_links. rewrite orb_false_iff, Z.eqb_neq, negb_false_iff, String.eqb_eq.
  split.
  - intros [Hg E]. split; [done|].
    change "effect-control-v0" with (to_unique_name (mkRecord "effect-control" 0 0)) in E.
    apply to_unique_name_inj_full in E. done.
  - intros (Hg & Hn & Hv). split; [done|]. unfold to_unique_name. rewrite Hn, Hv. reflexivity.
Qed.

(* ================================================================= *)
(** * What the parser consumes, what a DGO file adds *)

Lemma parse_objs_Ok k r objs :
  parse_objs k r = Ok objs ->
  length objs = k /\ length r = sum_list_with (fun o => 64 + length (snd o)) objs.
Proof.
  revert r objs. induction k as [|k IH]; intros r objs; simpl.
  - destruct (Nat.eqb_spec (length r) 0); [|discriminate]. intros [= <-]. simpl. lia.
  - unfold read_header. destruct (Nat.leb_spec 64 (length r)) as [Hr|]; [|discriminate].
    destruct (Z.ltb_spec (Z.of_nat (length (drop 64 r))) (le32 (take 4 r))) as [|Hsz];
      [discriminate|].
    destruct (empty_after _); simpl; [|discriminate].
    destruct (parse_objs k _) as [os|] eqn:Hp; simpl; [|discriminate].
    intros [= <-]. destruct (IH _ _ Hp) as [Hl Hs]. split; [simpl; lia|].
    transitivity (64 + length (take (Z.to_nat (le32 (take 4 r))) (drop 64 r))
                  + length (drop (Z.to_nat (le32 (take 4 r))) (drop 64 r))).
    { rewrite length_drop, length_take, length_drop. lia. }
    rewrite Hs. reflexivity.
Qed.

Lemma inserted_record_name crc32 db n b :
  Inv db -> name (inserted_record crc32 db n b) = n.
Proof.
  intros HI. unfold inserted_record.
  destruct (find_dup _ _ _) as [[l' r]|] eqn:Hf; [|done].
  apply find_dup_Some in Hf as (i & e & Hi & _ & _ & _ & ->).
  assert (Hne : variants db n <> []) by (intros E; rewrite E in Hi; discriminate).
  pose proof (Inv_variants_Some db n HI Hne) as HS.
  exact (proj1 (proj2 (proj1 HI n _ HS) i e Hi)).
Qed.

(** The records appended to the list of DGO [d] carry, in order, the
    names of the insertions from [d]. *)
Lemma insert_all_members_names crc32 db ops d :
  Inv db ->
  exists rs, members (insert_all crc32 db ops) d = members db d ++ rs /\
    map name rs = map op_name (filter (fun op => op_dgo op = d) ops).
Proof.
  revert db. induction ops as [|[[n b] d'] ops IH]; intros db HI; simpl.
  - exists []. by rewrite app_nil_r.
  - destruct (IH (add_obj_from_dgo crc32 db n b d')) as (rs & Hrs & Hn);
      [by apply Inv_add|].
    rewrite Hrs, add_members, filter_cons. simpl.
    destruct (decide (d = d')) as [->|Hne].
    + rewrite decide_True by done. exists (inserted_record crc32 db n b :: rs).
      rewrite <- app_assoc. split; [done|]. simpl. by rewrite inserted_record_name, Hn.
    + rewrite decide_False by congruence. by exists rs.
Qed.

Lemma members_insert_all_other crc32 db ops d :
  Forall (fun op => op_dgo op <> d) ops ->
  members (insert_all crc32 db ops) d = members db d.
Proof.
  revert db. induction ops as [|[[n b] d'] ops IH]; intros db Hops; simpl; [done|].
  apply Forall_cons in Hops as [Hd Hops]. simpl in Hd.
  rewrite IH by done. rewrite add_members. by rewrite decide_False by congruence.
Qed.

Lemma filter_dgo_ops dgo objs :
  filter (fun op => op_dgo op = dgo) (dgo_ops dgo objs) = dgo_ops dgo objs.
Proof.
  induction objs as [|[n b] objs IH]; simpl; [done|].
  rewrite filter_cons, decide_True by done. by rewrite IH.
Qed.

Lemma map_op_name_dgo_ops dgo objs : map op_name (dgo_ops dgo objs) = map fst objs.
Proof. induction objs as [|[n b] objs IH]; simpl; [done|]. by rewrite IH. Qed.

Lemma insert_all_total crc32 db ops :
  (0 <= total_obj_files (stats db) < 2 ^ 32)%Z ->
  total_obj_files (stats (insert_all crc32 db ops)) =
    u32_add (total_obj_files (stats db)) (Z.of_nat (length ops)).
Proof.
  revert db. induction ops as [|[[n b] d] ops IH]; intros db Hr; simpl.
  - unfold u32_add. rewrite u32_small; lia.
  - rewrite IH by (rewrite add_total; apply u32_range). rewrite add_total.
    unfold u32_add at 2. rewrite u32_add_u32. unfold u32_add. f_equal. lia.
Qed.

Lemma length_dgo_ops dgo objs : length (dgo_ops dgo objs) = length objs.
Proof. apply length_map. Qed.

(** X4.  A DGO image that [get_objs_from_dgo] accepts is consumed
    exactly: it yields as many objects as the count in the archive
    header, and its length is the 64-byte archive header plus, for each
    object, a 64-byte object header and the object's bytes. *)
Theorem parse_dgo_consumes dgo_base_name dgo_data objs :
  parse_dgo dgo_base_name dgo_data = Ok objs ->
  length objs = Z.to_nat (le32 (take 4 dgo_data)) /\
  length dgo_data = 64 + sum_list_with (fun o => 64 + length (snd o)) objs.
Proof.
  unfold parse_dgo, read_header.
  destruct (Nat.leb_spec 64 (length dgo_data)); [|discriminate].
  destruct (String.eqb _ _), (empty_after _); cbv [negb]; try discriminate.
  intros (Hl & Hs)%parse_objs_Ok. split; [done|].
  rewrite length_drop in Hs. lia.
Qed.

(** X5.  Loading one DGO file into a database built by insertions
    (with a 32-bit [total_obj_files]): the file's size (compressed size
    for an oZlB file) is added to [total_dgo_bytes] and the number of
    objects parsed from its contents to [total_obj_files], both modulo
    2^32; the objects are appended, as records carrying their names in
    file order, to the list of that DGO; the lists of the other DGOs are
    unchanged. *)
Theorem get_objs_from_dgo_effect crc32 lzo db dgo bytes db' :
  Inv db -> (0 <= total_obj_files (stats db) < 2 ^ 32)%Z ->
  get_objs_from_dgo crc32 lzo db dgo bytes = Ok db' ->
  exists dgo_data objs rs,
    dgo_payload lzo bytes = Ok dgo_data /\ parse_dgo dgo dgo_data = Ok objs /\
    total_dgo_bytes (stats db') =
      u32_add (total_dgo_bytes (stats db)) (Z.of_nat (length bytes)) /\
    total_obj_files (stats db') =
      u32_add (total_obj_files (stats db)) (Z.of_nat (length objs)) /\
    members db' dgo = members db dgo ++ rs /\ map name rs = map fst objs /\
    (forall d, d <> dgo -> members db' d = members db d).
Proof.
  intros HI Hr (dd & objs & Hd & Hp & ->)%get_objs_from_dgo_Ok.
  set (db1 := mkDB _ _ _ _).
  destruct (insert_all_members_names crc32 db1 (dgo_ops dgo objs) dgo) as (rs & Hrs & Hn);
    [by apply Inv_stats|].
  exists dd, objs, rs. split; [done|]. split; [done|].
  rewrite insert_all_total_dgo_bytes, insert_all_total by exact Hr. rewrite length_dgo_ops.
  split; [done|]. split; [done|]. split; [exact Hrs|]. split.
  - by rewrite Hn, filter_dgo_ops, map_op_name_dgo_ops.
  - intros d Hne. rewrite members_insert_all_other; [reflexivity|].
    apply Forall_forall. intros op Hop. unfold dgo_ops in Hop.
    apply list_elem_of_fmap in Hop as ([n b] & -> & _). simpl. congruence.
Qed.

(* ================================================================= *)
(** * Stored entries and their reference counts *)

#[global] Instance ObjectFileRecord_eq_dec : EqDecision ObjectFileRecord.
Proof.
  intros [n1 v1 h1] [n2 v2 h2].
  destruct (decide (n1 = n2)), (decide (v1 = v2)), (decide (h1 = h2));
    [left; by subst|right; congruence..].
Defined.

(** How many times [r] occurs in the DGO lists. *)
Definition occurrences (db : ObjectFileDB) (r : ObjectFileRecord) : nat :=
  map_sum (fun l => length (filter (fun x => x = r) l)) (obj_files_by_dgo db).

Lemma map_sum_pos {V} (f : V -> nat) (m : gmap string V) :
  0 < map_sum f m -> exists k v, m !! k = Some v /\ 0 < f v.
Proof.
  induction m as [|k v m Hk IH] using map_ind.
  - rewrite map_sum_empty. lia.
  - pose proof (map_sum_insert f m k v) as H. rewrite Hk in H. simpl in H. intros Hp.
    destruct (decide (0 < f v)).
    + exists k, v. by rewrite lookup_insert_eq.
    + destruct IH as (k' & v' & Hk' & Hv'); [lia|].
      exists k', v'. rewrite lookup_insert_ne; [done|]. congruence.
Qed.

Section EntryFacts.

Variable crc32 : list byte -> Z.

Abbreviation add := (add_obj_from_dgo crc32).

Lemma add_lookup db n b d k :
  obj_files_by_name (add db n b d) !! k =
  if decide (k = n) then Some (variants (add db n b d) n) else obj_files_by_name db !! k.
Proof.
  case_decide as Hk; [subst k|]; unfold variants, add_obj_from_dgo;
    destruct (find_dup _ _ _) as [[??]|]; simpl;
    rewrite ?lookup_insert_eq, ?lookup_insert_ne by done; done.
Qed.

Lemma variants_lookup db n i e :
  variants db n !! i = Some e -> obj_files_by_name db !! n = Some (variants db n).
Proof. unfold variants. by destruct (obj_files_by_name db !! n). Qed.

Lemma add_occurrences db n b d r :
  occurrences (add db n b d) r =
  occurrences db r + if decide (inserted_record crc32 db n b = r) then 1 else 0.
Proof.
  unfold occurrences. rewrite add_obj_files_by_dgo.
  pose proof (map_sum_insert (fun l => length (filter (fun x => x = r) l))
                (obj_files_by_dgo db) d (members db d ++ [inserted_record crc32 db n b])) as H.
  cbv beta in H. rewrite filter_app, length_app, filter_cons, filter_nil in H. unfold members in *.
  destruct (obj_files_by_dgo db !! d); simpl in *; case_decide; simpl in *; lia.
Qed.

(** Two stored entries with the same record sit at the same place. *)
Lemma Inv_record_inj db n1 l1 i1 e1 n2 l2 i2 e2 :
  Inv db ->
  obj_files_by_name db !! n1 = Some l1 -> l1 !! i1 = Some e1 ->
  obj_files_by_name db !! n2 = Some l2 -> l2 !! i2 = Some e2 ->
  record e1 = record e2 -> n1 = n2 /\ i1 = i2.
Proof.
  intros [Hl _] H1 Hi1 H2 Hi2 E.
  destruct (proj2 (Hl _ _ H1) _ _ Hi1) as [<- <-].
  destruct (proj2 (Hl _ _ H2) _ _ Hi2) as [<- <-]. by rewrite E.
Qed.

(** Every stored entry survives an insertion at its place, with its
    record and bytes, and a reference count at least as large. *)
Lemma add_survives db n b d k l j e :
  obj_files_by_name db !! k = Some l -> l !! j = Some e ->
  exists l' e', obj_files_by_name (add db n b d) !! k = Some l' /\ l' !! j = Some e' /\
    record e' = record e /\ data e' = data e /\ reference_count e <= reference_count e'.
Proof.
  intros Hk Hj. rewrite add_lookup. case_decide as Hkn; [subst k|by exists l, e].
  assert (Hv : variants db n = l) by (unfold variants; by rewrite Hk). subst l.
  rewrite add_variants_eq. destruct (find_dup _ _ _) as [[l' r]|] eqn:Hf.
  - apply find_dup_Some in Hf as (i & e0 & Hi & _ & _ & -> & _).
    destruct (decide (j = i)) as [->|Hji].
    + rewrite Hi in Hj. injection Hj as ->. eexists _, (bump e).
      rewrite list_lookup_insert_eq by (by eapply lookup_lt_Some). simpl. repeat split; lia.
    + eexists _, e. rewrite list_lookup_insert_ne by done. repeat split; done.
  - eexists _, e. rewrite lookup_app_l by (by eapply lookup_lt_Some). repeat split; done.
Qed.

(** The entry holding the record an insertion appends. *)
Lemma inserted_record_stored db n b d :
  exists j e, variants (add db n b d) n !! j = Some e /\ record e = inserted_record crc32 db n b.
Proof.
  rewrite add_variants_eq. unfold inserted_record.
  destruct (find_dup _ _ _) as [[l' r]|] eqn:Hf.
  - apply find_dup_Some in Hf as (i & e & Hi & _ & _ & -> & ->).
    exists i, (bump e). rewrite list_lookup_insert_eq by (by eapply lookup_lt_Some). done.
  - eexists (length (variants db n)), _. rewrite lookup_app_r, Nat.sub_diag by lia. done.
Qed.

(** The entry invariant: every stored entry's hash is the crc32 of its
    bytes and its reference count is one less than the number of
    occurrences of its record in the DGO lists; two variants of a name
    differ in size or hash; every record in a DGO list is stored. *)
Definition Entries (db : ObjectFileDB) : Prop :=
  (forall n l i e, obj_files_by_name db !! n = Some l -> l !! i = Some e ->
     hash (record e) = crc32 (data e) /\
     S (reference_count e) = occurrences db (record e)) /\
  (forall n l i j e1 e2, obj_files_by_name db !! n = Some l ->
     l !! i = Some e1 -> l !! j = Some e2 ->
     length (data e1) = length (data e2) -> hash (record e1) = hash (record e2) -> i = j) /\
  (forall d l r, obj_files_by_dgo db !! d = Some l -> r ∈ l ->
     exists n l' i e, obj_files_by_name db !! n = Some l' /\ l' !! i = Some e /\ record e = r).

Lemma Entries_empty : Entries empty_db.
Proof.
  unfold empty_db. split; [|split]; intros ???; cbn [obj_files_by_name obj_files_by_dgo];
    rewrite lookup_empty; discriminate.
Qed.

Lemma Entries_stats db st :
  Entries db -> Entries (mkDB (obj_files_by_name db) (obj_files_by_dgo db) (obj_file_order db) st).
Proof. done. Qed.

Lemma lookup_insert_bump (l : list ObjectFileData) i e j e1 :
  <[i := bump e]> l !! j = Some e1 -> l !! i = Some e ->
  exists e1', l !! j = Some e1' /\ record e1 = record e1' /\ data e1 = data e1'.
Proof.
  intros Hj Hi. destruct (decide (j = i)) as [->|Hji].
  - rewrite list_lookup_insert_eq in Hj by (by eapply lookup_lt_Some).
    injection Hj as <-. by exists e.
  - rewrite list_lookup_insert_ne in Hj by done. by exists e1.
Qed.

Lemma filter_pos_elem (P : ObjectFileRecord -> Prop) `{!forall x, Decision (P x)} l :
  0 < length (filter P l) -> exists x, x ∈ l /\ P x.
Proof.
  intros Hp. destruct (filter P l) as [|x l'] eqn:E; simpl in Hp; [lia|].
  assert (Hx : x ∈ filter P l) by (rewrite E; left).
  apply list_elem_of_filter in Hx as [? ?]. by exists x.
Qed.

Lemma Entries_add db n b d : Inv db -> Entries db -> Entries (add db n b d).
Proof.
  intros HI (Hs & Hd & Hm). pose proof HI as (Hl & _).
  split; [|split].
  - intros k l' j e' Hk Hj. rewrite add_occurrences.
    rewrite add_lookup in Hk. destruct (decide (k = n)) as [->|Hkn].
    + injection Hk as <-. rewrite add_variants_eq in Hj. unfold inserted_record.
      destruct (find_dup _ _ _) as [[l'' r]|] eqn:Hf.
      * apply find_dup_Some in Hf as (i & e & Hi & _ & _ & -> & ->).
        pose proof (variants_lookup _ _ _ _ Hi) as HS.
        destruct (decide (j = i)) as [->|Hji].
        -- rewrite list_lookup_insert_eq in Hj by (by eapply lookup_lt_Some).
           injection Hj as <-. simpl. rewrite decide_True by done.
           destruct (Hs _ _ _ _ HS Hi) as (? & ?). repeat split; lia.
        -- rewrite list_lookup_insert_ne in Hj by done.
           destruct (Hs _ _ _ _ HS Hj) as (? & ?).
           rewrite decide_False; [repeat split; lia|].
           intros E. destruct (Inv_record_inj _ _ _ _ _ _ _ _ _ HI HS Hi HS Hj E). done.
      * apply lookup_app_Some in Hj as [Hj|[Hlen Hj]].
        -- pose proof (variants_lookup _ _ _ _ Hj) as HS.
           destruct (Hs _ _ _ _ HS Hj) as (? & ?).
           rewrite decide_False; [repeat split; lia|]. intros E.
           destruct (proj2 (Hl _ _ HS) _ _ Hj) as [_ Hv]. rewrite <- E in Hv. simpl in Hv.
           apply lookup_lt_Some in Hj. lia.
        -- apply list_lookup_singleton_Some in Hj as [Hj <-]. simpl.
           rewrite decide_True by done. split; [done|]. unfold default_reference_count.
           set (r0 := mkRecord n (length (variants db n)) (crc32 b)).
           enough (occurrences db r0 = 0) by lia.
           destruct (occurrences db r0) as [|m] eqn:Ho; [done|exfalso].
           destruct (map_sum_pos (fun l => length (filter (fun x => x = r0) l))
                       (obj_files_by_dgo db)) as (d' & ld & Hd' & Hp);
             [unfold occurrences in Ho; rewrite Ho; lia|].
           apply filter_pos_elem in Hp as (x & Hx & ->).
           destruct (Hm _ _ _ Hd' Hx) as (k & lk & i & e & Hk & Hi & Hr).
           destruct (proj2 (Hl _ _ Hk) _ _ Hi) as [Hn Hv]. rewrite Hr in Hn, Hv.
           simpl in Hn, Hv. subst k i.
           assert (variants db n = lk) as <- by (unfold variants; by rewrite Hk).
           apply lookup_lt_Some in Hi. lia.
    + destruct (Hs _ _ _ _ Hk Hj) as (? & ?).
      rewrite decide_False; [repeat split; lia|]. intros E.
      apply (f_equal name) in E. rewrite inserted_record_name in E by done.
      pose proof (proj1 (proj2 (Hl _ _ Hk) _ _ Hj)). rewrite <- E in *. done.
  - intros k l' i j e1 e2 Hk Hi Hj Hlen Hh.
    rewrite add_lookup in Hk. destruct (decide (k = n)) as [->|Hkn]; [|eauto].
    injection Hk as <-. rewrite add_variants_eq in Hi, Hj.
    destruct (find_dup _ _ _) as [[l'' r]|] eqn:Hf.
    + apply find_dup_Some in Hf as (i0 & e & Hi0 & _ & _ & -> & _).
      pose proof (variants_lookup _ _ _ _ Hi0) as HS.
      destruct (lookup_insert_bump _ _ _ _ _ Hi Hi0) as (e1' & Hi' & Hr1 & Hd1).
      destruct (lookup_insert_bump _ _ _ _ _ Hj Hi0) as (e2' & Hj' & Hr2 & Hd2).
      apply (Hd _ _ _ _ _ _ HS Hi' Hj'); congruence.
    + apply find_dup_None in Hf. rewrite Forall_lookup in Hf.
      apply lookup_app_Some in Hi as [Hi|[Hli Hi]], Hj as [Hj|[Hlj Hj]].
      * exact (Hd _ _ _ _ _ _ (variants_lookup _ _ _ _ Hi) Hi Hj Hlen Hh).
      * apply list_lookup_singleton_Some in Hj as [_ <-]. simpl in *.
        destruct (Hf _ _ Hi). by split.
      * apply list_lookup_singleton_Some in Hi as [_ <-]. simpl in *.
        destruct (Hf _ _ Hj). by split.
      * apply list_lookup_singleton_Some in Hi as [? _], Hj as [? _]. lia.
  - intros d' l r Hd' Hr. rewrite add_obj_files_by_dgo in Hd'.
    assert (Hold : forall l0, obj_files_by_dgo db !! d' = Some l0 -> r ∈ l0 ->
      exists n0 l1 i e, obj_files_by_name (add db n b d) !! n0 = Some l1 /\
                        l1 !! i = Some e /\ record e = r).
    { intros l0 H0 Hr0. destruct (Hm _ _ _ H0 Hr0) as (n0 & l1 & i & e & H1 & Hi & <-).
      destruct (add_survives db n b d _ _ _ _ H1 Hi) as (l1' & e' & ? & ? & ? & _).
      by exists n0, l1', i, e'. }
    destruct (decide (d' = d)) as [->|Hne].
    + rewrite lookup_insert_eq in Hd'. injection Hd' as <-.
      apply elem_of_app in Hr as [Hr|Hr%list_elem_of_singleton].
      * unfold members in Hr. destruct (obj_files_by_dgo db !! d) as [l0|] eqn:E;
          [by apply (Hold l0)|simpl in Hr; by apply elem_of_nil in Hr].
      * destruct (inserted_record_stored db n b d) as (j & e & Hj & He).
        exists n, (variants (add db n b d) n), j, e.
        rewrite add_lookup, decide_True by done. by rewrite He, Hr.
    + rewrite lookup_insert_ne in Hd' by congruence. by apply (Hold l).
Qed.

Lemma Entries_insert_all db ops :
  Inv db -> Entries db -> Entries (insert_all crc32 db ops).
Proof.
  revert db. induction ops as [|[[n b] d] ops IH]; intros db HI HE; simpl; [done|].
  apply IH; [by apply Inv_add|by apply Entries_add].
Qed.

End EntryFacts.

Lemma Entries_init crc32 lzo dgos db :
  ObjectFileDB_init crc32 lzo dgos = Ok db -> Inv db /\ Entries crc32 db.
Proof.
  unfold ObjectFileDB_init.
  assert (H0 : Inv empty_db /\ Entries crc32 empty_db) by (split; [apply Inv_empty|apply Entries_empty]).
  revert H0. generalize empty_db as db0.
  induction dgos as [|[dgo bytes] dgos IH]; intros db0 [HI HE]; simpl; [by intros [= <-]|].
  destruct (get_objs_from_dgo crc32 lzo db0 dgo bytes) as [db1|] eqn:Hg; simpl; [|discriminate].
  apply IH. apply get_objs_from_dgo_Ok in Hg as (dd & objs & _ & _ & ->).
  split; [apply Inv_insert_all, Inv_stats, HI|].
  apply Entries_insert_all; [by apply Inv_stats|by apply Entries_stats].
Qed.

Lemma insert_all_survives crc32 db ops k l j e :
  obj_files_by_name db !! k = Some l -> l !! j = Some e ->
  exists l' e', obj_files_by_name (insert_all crc32 db ops) !! k = Some l' /\ l' !! j = Some e' /\
    record e' = record e /\ data e' = data e /\ reference_count e <= reference_count e'.
Proof.
  revert db l e. induction ops as [|[[n b] d] ops IH]; intros db l e Hk Hj; simpl.
  - exists l, e. repeat split; done.
  - destruct (add_survives crc32 db n b d k l j e Hk Hj) as (l1 & e1 & H1 & H2 & H3 & H4 & H5).
    destruct (IH _ _ _ H1 H2) as (l2 & e2 & ? & ? & ? & ? & ?).
    exists l2, e2. repeat split; try done; congruence || lia.
Qed.

(** X6.  In a database built by the constructor, every stored entry's
    hash is the crc32 of its stored bytes, and two variants of the same
    name never share both size and hash: the variants of a name are
    pairwise distinguishable by the test the deduplication uses. *)
Theorem stored_entries_distinct crc32 lzo dgos db :
  ObjectFileDB_init crc32 lzo dgos = Ok db ->
  (forall n l i e, obj_files_by_name db !! n = Some l -> l !! i = Some e ->
     hash (record e) = crc32 (data e)) /\
  (forall n l i j e1 e2, obj_files_by_name db !! n = Some l ->
     l !! i = Some e1 -> l !! j = Some e2 -> i <> j ->
     length (data e1) <> length (data e2) \/ hash (record e1) <> hash (record e2)).
Proof.
  intros H. destruct (Entries_init crc32 lzo dgos db H) as [_ (Hs & Hd & _)]. split.
  - intros n l i e Hn Hi. apply (Hs _ _ _ _ Hn Hi).
  - intros n l i j e1 e2 Hn Hi Hj Hij.
    destruct (decide (length (data e1) = length (data e2))); [|by left].
    destruct (decide (hash (record e1) = hash (record e2))); [|by right].
    destruct Hij. eauto.
Qed.

(** X7.  In a database built by the constructor, the record of every
    stored entry appears in the per-DGO lists, and its reference count
    is exactly one less than the number of times it appears there (the
    count starts at its default 0 and the duplicate path adds 1); every
    record in a per-DGO list is the record of a stored entry. *)
Theorem reference_counts_exact crc32 lzo dgos db :
  ObjectFileDB_init crc32 lzo dgos = Ok db ->
  (forall n l i e, obj_files_by_name db !! n = Some l -> l !! i = Some e ->
     1 <= occurrences db (record e) /\ reference_count e + 1 = occurrences db (record e)) /\
  (forall d l r, obj_files_by_dgo db !! d = Some l -> r ∈ l ->
     exists n l' i e, obj_files_by_name db !! n = Some l' /\ l' !! i = Some e /\ record e = r).
Proof.
  intros H. destruct (Entries_init crc32 lzo dgos db H) as [_ (Hs & _ & Hm)]. split; [|done].
  intros n l i e Hn Hi. destruct (Hs _ _ _ _ Hn Hi) as (_ & ?). lia.
Qed.

(** X8.  Loading a DGO file never removes or alters a stored entry:
    every entry of the database before is found at the same name and
    index after, with the same record and bytes and a reference count
    at least as large. *)
Theorem get_objs_from_dgo_keeps_entries crc32 lzo db dgo bytes db' k l j e :
  get_objs_from_dgo crc32 lzo db dgo bytes = Ok db' ->
  obj_files_by_name db !! k = Some l -> l !! j = Some e ->
  exists l' e', obj_files_by_name db' !! k = Some l' /\ l' !! j = Some e' /\
    record e' = record e /\ data e' = data e /\ reference_count e <= reference_count e'.
Proof.
  intros (dd & objs & _ & _ & ->)%get_objs_from_dgo_Ok Hk Hj.
  exact (insert_all_survives crc32 (mkDB _ _ _ _) (dgo_ops dgo objs) k l j e Hk Hj).
Qed.

(* ================================================================= *)
(** * [ObjectFileDB::generate_dgo_listing] *)

From stdpp Require Import sorting.

Definition quote_str : string := String (Ascii.ascii_of_nat 34) EmptyString.
Definition newline : string := String (Ascii.ascii_of_nat 10) EmptyString.

(** The keys of [obj_files_by_dgo] after [std::sort]: the keys are
    distinct, so every sorting routine gives this same list. *)
Definition sorted_dgo_names (db : ObjectFileDB) : list string :=
  merge_sort String.le ((map_to_list (obj_files_by_dgo db)).*1).

(** [result += "  " + obj.name + " :version " + std::to_string(obj.version) + "\n";] *)
Definition listing_line (obj : ObjectFileRecord) : string :=
  String.append "  " (String.append (name obj)
    (String.append " :version " (String.append (pretty (N.of_nat (version obj))) newline))).

(** The block of one DGO. *)
Definition dgo_block (db : ObjectFileDB) (nm : string) : string :=
  String.append "(" (String.append quote_str (String.append nm (String.append quote_str
    (String.append newline (String.append (String.concat "" (map listing_line (members db nm)))
      (String.append "  )" (String.append newline newline))))))).

Definition generate_dgo_listing (db : ObjectFileDB) : string :=
  String.append ";; DGO File Listing" (String.append newline (String.append newline
    (String.concat "" (map (dgo_block db) (sorted_dgo_names db))))).

Lemma elem_of_sorted_dgo_names db d :
  d ∈ sorted_dgo_names db <-> is_Some (obj_files_by_dgo db !! d).
Proof.
  unfold sorted_dgo_names. rewrite (merge_sort_Permutation _ _), list_elem_of_fmap.
  split.
  - intros ([k v] & -> & Hkv). apply elem_of_map_to_list in Hkv. simpl. eauto.
  - intros [v Hv]. exists (d, v). split; [done|]. by apply elem_of_map_to_list.
Qed.

(** Every DGO list of a database built by insertions is non-empty. *)
Definition DgoNonEmpty (db : ObjectFileDB) : Prop :=
  forall d l, obj_files_by_dgo db !! d = Some l -> l <> [].

Lemma DgoNonEmpty_insert_all crc32 db ops :
  DgoNonEmpty db -> DgoNonEmpty (insert_all crc32 db ops).
Proof.
  revert db. induction ops as [|[[n b] d] ops IH]; intros db H; simpl; [done|].
  apply IH. intros d' l Hd'. rewrite add_obj_files_by_dgo in Hd'.
  destruct (decide (d' = d)) as [->|Hne].
  - rewrite lookup_insert_eq in Hd'. injection Hd' as <-.
    intros E. apply app_nil in E. by destruct E as [_ ?].
  - rewrite lookup_insert_ne in Hd' by congruence. eauto.
Qed.

Lemma DgoNonEmpty_init crc32 lzo dgos db :
  ObjectFileDB_init crc32 lzo dgos = Ok db -> DgoNonEmpty db.
Proof.
  unfold ObjectFileDB_init.
  assert (H0 : DgoNonEmpty empty_db) by (intros d l; simpl; by rewrite lookup_empty).
  revert H0. generalize empty_db as db0.
  induction dgos as [|[dgo bytes] dgos IH]; intros db0 H0; simpl; [by intros [= <-]|].
  destruct (get_objs_from_dgo crc32 lzo db0 dgo bytes) as [db1|] eqn:Hg; simpl; [|discriminate].
  apply IH. apply get_objs_from_dgo_Ok in Hg as (dd & objs & _ & _ & ->).
  apply DgoNonEmpty_insert_all. exact H0.
Qed.

(** X9.  The DGO names of [generate_dgo_listing], for a database built
    by the constructor, are sorted, listed once each, and are exactly
    the DGOs with at least one object: a DGO file whose header lists no
    object gets no block. *)
Theorem dgo_listing_names crc32 lzo dgos db :
  ObjectFileDB_init crc32 lzo dgos = Ok db ->
  StronglySorted String.le (sorted_dgo_names db) /\ NoDup (sorted_dgo_names db) /\
  (forall d, d ∈ sorted_dgo_names db <-> members db d <> []).
Proof.
  intros H. pose proof (DgoNonEmpty_init crc32 lzo dgos db H) as Hne.
  split; [apply StronglySorted_merge_sort; apply _|split].
  - unfold sorted_dgo_names. rewrite merge_sort_Permutation. apply NoDup_fst_map_to_list.
  - intros d. rewrite elem_of_sorted_dgo_names. unfold members.
    destruct (obj_files_by_dgo db !! d) as [l|] eqn:E; simpl.
    + split; [intros _; exact (Hne d l E)|eauto].
    + split; [by intros [? ?]|done].
Qed.

(* ================================================================= *)
(** * Decompression of a well-formed oZlB file *)

(** One block as it appears in an oZlB file: [z] zero words skipped by
    the [while (!chunk_size)] loop, the 4-byte chunk size, the block's
    bytes, and the padding to the next multiple of 4. *)
Definition encode_block (blk : nat * list byte * list byte * list byte) : list byte :=
  let '(z, size4, payload, pad) := blk in repeat x00 (z * 4) ++ size4 ++ payload ++ pad.

(** A block that decodes to [out]: a compressed block below
    [MAX_CHUNK_SIZE] that LZO expands to [out], or a literal block of
    exactly [MAX_CHUNK_SIZE] bytes; [out] is not empty. *)
Definition wf_block (lzo1x_decompress : list byte -> option (list byte))
    (blk : nat * list byte * list byte * list byte) (out : list byte) : Prop :=
  let '(z, size4, payload, pad) := blk in
  length size4 = 4 /\ le32 size4 <> 0%Z /\
  length pad < 4 /\ (length payload + length pad) mod 4 = 0 /\
  (((le32 size4 < Z.of_nat MAX_CHUNK_SIZE)%Z /\ length payload = Z.to_nat (le32 size4) /\
    lzo1x_decompress payload = Some out) \/
   ((Z.of_nat MAX_CHUNK_SIZE <= le32 size4)%Z /\ length payload = MAX_CHUNK_SIZE /\
    out = payload)) /\
  out <> [].

Lemma read_u32_app pre w r :
  length w = 4 -> read_u32 (pre ++ w ++ r) (length pre) = Some (le32 w).
Proof.
  intros Hw. unfold read_u32.
  rewrite (proj2 (Nat.leb_le _ _)) by (rewrite !length_app; lia).
  rewrite drop_app_length, take_app_length' by done. reflexivity.
Qed.

Lemma next_chunk_size_skip fuel z pre w r :
  length w = 4 -> le32 w <> 0%Z -> z < fuel ->
  next_chunk_size fuel (pre ++ repeat x00 (z * 4) ++ w ++ r) (length pre) =
  Ok (le32 w, length pre + z * 4 + 4).
Proof.
  intros Hw Hc. revert fuel pre. induction z as [|z IH]; intros [|fuel] pre Hf; try lia; simpl.
  - rewrite read_u32_app by done. by rewrite (proj2 (Z.eqb_neq _ _) Hc), Nat.add_0_r.
  - change (x00 :: x00 :: x00 :: x00 :: repeat x00 (z * 4) ++ w ++ r)
      with ([x00; x00; x00; x00] ++ repeat x00 (z * 4) ++ w ++ r).
    rewrite read_u32_app by done. simpl.
    replace (length pre + 4) with (length (pre ++ [x00; x00; x00; x00]))
      by (rewrite length_app; simpl; lia).
    pose proof (IH fuel (pre ++ [x00; x00; x00; x00]) ltac:(lia)) as H.
    rewrite <- app_assoc in H. cbn [app] in H. rewrite H, length_app.
    cbn [length]. f_equal. f_equal. lia.
Qed.

Lemma drop_repeat_add {A} (x : A) k m : drop k (repeat x (k + m)) = repeat x m.
Proof. induction k as [|k IH]; simpl; [done|exact IH]. Qed.

Lemma write_out_fill W bs k :
  write_out (W ++ repeat x00 (length bs + k)) (length W) bs = Ok (W ++ bs ++ repeat x00 k).
Proof.
  unfold write_out.
  rewrite (proj2 (Nat.leb_le _ _)) by (rewrite length_app, repeat_length; lia).
  rewrite take_app_length, <- drop_drop, drop_app_length, drop_repeat_add. reflexivity.
Qed.

Lemma align4_pad x lp la :
  x mod 4 = 0 -> la < 4 -> (lp + la) mod 4 = 0 -> align4 (x + lp) = x + lp + la.
Proof.
  intros Hx Hla Hp. unfold align4.
  pose proof (Nat.div_mod x 4 ltac:(lia)) as Ex.
  pose proof (Nat.div_mod (lp + la) 4 ltac:(lia)) as Ep.
  assert (E : x + lp + 3 = (x / 4 + (lp + la) / 4) * 4 + (3 - la)) by lia.
  rewrite E, Nat.div_add_l, (Nat.div_small (3 - la) 4) by lia. lia.
Qed.

Section DecompressRoundTrip.

Variable lzo1x_decompress : list byte -> option (list byte).

Lemma decompress_block_wf pre blk out rest W k :
  wf_block lzo1x_decompress blk out ->
  let '(z, size4, payload, pad) := blk in
  decompress_block lzo1x_decompress (pre ++ encode_block blk ++ rest) (le32 size4)
    (length pre + z * 4 + 4) (length W) (W ++ repeat x00 (length out + k)) =
  Ok (W ++ out ++ repeat x00 k, length pre + z * 4 + 4 + length payload, length W + length out).
Proof.
  destruct blk as [[[z size4] payload] pad]. simpl.
  intros (Hw & _ & _ & _ & Hk & _).
  set (inp := pre ++ (repeat x00 (z * 4) ++ size4 ++ payload ++ pad) ++ rest).
  assert (Hd : drop (length pre + z * 4 + 4) inp = payload ++ pad ++ rest).
  { assert (E : inp = (pre ++ repeat x00 (z * 4) ++ size4) ++ (payload ++ pad ++ rest))
      by (unfold inp; by rewrite <- !app_assoc).
    replace (length pre + z * 4 + 4) with (length (pre ++ repeat x00 (z * 4) ++ size4))
      by (rewrite !length_app, repeat_length; lia).
    by rewrite E, drop_app_length. }
  assert (Hl : length pre + z * 4 + 4 + length payload <= length inp).
  { unfold inp. rewrite !length_app, repeat_length. lia. }
  unfold decompress_block. rewrite Hd.
  destruct Hk as [(Hlt & Hn & Hz)|(Hge & Hn & ->)].
  - rewrite (proj2 (Z.ltb_lt _ _) Hlt), <- Hn.
    rewrite (proj2 (Nat.leb_le _ _) Hl), take_app_length, Hz. simpl.
    by rewrite write_out_fill.
  - rewrite (proj2 (Z.ltb_ge _ _) Hge), <- Hn.
    rewrite (proj2 (Nat.leb_le _ _) Hl), take_app_length. simpl.
    by rewrite write_out_fill.
Qed.

Lemma wf_block_nonempty blk out : wf_block lzo1x_decompress blk out -> out <> [].
Proof. destruct blk as [[[z size4] payload] pad]. simpl. tauto. Qed.

Lemma length_encode_block z size4 payload pad :
  length (encode_block (z, size4, payload, pad)) =
  z * 4 + length size4 + length payload + length pad.
Proof. simpl. rewrite !length_app, repeat_length. lia. Qed.

Lemma decompress_loop_wf blocks outs rest fuel pre W :
  Forall2 (wf_block lzo1x_decompress) blocks outs -> blocks <> [] ->
  length pre mod 4 = 0 -> length blocks <= fuel ->
  decompress_loop lzo1x_decompress fuel (pre ++ concat (map encode_block blocks) ++ rest)
    (length W + length (concat outs)) (length pre) (length W)
    (W ++ repeat x00 (length (concat outs))) =
  Ok (W ++ concat outs).
Proof.
  intros Hwf. revert fuel pre W.
  induction Hwf as [|blk out blocks outs Hb Hwf IH]; intros fuel pre W Hne Hpre Hf; [done|].
  destruct fuel as [|fuel]; [simpl in Hf; lia|]. simpl in Hf.
  destruct blk as [[[z size4] payload] pad].
  pose proof Hb as (Hw & Hc & Hla & Hpa & Hk & Hout).
  pose proof (decompress_block_wf pre (z, size4, payload, pad) out
                (concat (map encode_block blocks) ++ rest) W (length (concat outs)) Hb) as HB.
  cbv beta iota in HB.
  change (concat (map encode_block ((z, size4, payload, pad) :: blocks)))
    with (encode_block (z, size4, payload, pad) ++ concat (map encode_block blocks)).
  change (concat (out :: outs)) with (out ++ concat outs). rewrite length_app.
  rewrite <- (app_assoc (encode_block _)).
  set (inp := pre ++ encode_block (z, size4, payload, pad) ++ concat (map encode_block blocks) ++ rest) in *.
  assert (Hlen : length inp = length pre + (z * 4 + 4 + length payload + length pad) +
                              length (concat (map encode_block blocks) ++ rest)).
  { unfold inp. rewrite !length_app, length_encode_block, Hw. lia. }
  assert (HN : next_chunk_size (length inp) inp (length pre) = Ok (le32 size4, length pre + z * 4 + 4)).
  { assert (E : inp = pre ++ repeat x00 (z * 4) ++ size4 ++
                      (payload ++ pad ++ concat (map encode_block blocks) ++ rest))
      by (unfold inp, encode_block; by rewrite <- !app_assoc).
    rewrite Hlen. rewrite E. apply next_chunk_size_skip; [done|done|lia]. }
  cbn [decompress_loop]. rewrite HN. cbn [bind]. rewrite HB. cbn [bind].
  destruct blocks as [|blk' blocks'].
  - inversion Hwf; subst. simpl.
    rewrite (proj2 (Nat.leb_le _ _)) by lia. reflexivity.
  - inversion Hwf as [|? out' ? outs' Hb' Hwf']; subst.
    pose proof (wf_block_nonempty _ _ Hb') as Hout'.
    assert (Hpos : 0 < length (concat (out' :: outs'))).
    { simpl. rewrite length_app. destruct out'; [done|simpl; lia]. }
    rewrite (proj2 (Nat.leb_gt _ _)) by lia.
    assert (Hal : (length pre + z * 4 + 4) mod 4 = 0).
    { replace (length pre + z * 4 + 4) with (length pre + (z + 1) * 4) by lia.
      by rewrite Nat.Div0.mod_add. }
    rewrite (align4_pad (length pre + z * 4 + 4) (length payload) (length pad)) by done.
    rewrite (proj2 (Nat.leb_le _ _)) by (rewrite Hlen; lia).
    replace inp with ((pre ++ encode_block (z, size4, payload, pad)) ++
                      concat (map encode_block (blk' :: blocks')) ++ rest)
      by (unfold inp; by rewrite <- !app_assoc).
    replace (length pre + z * 4 + 4 + length payload + length pad)
      with (length (pre ++ encode_block (z, size4, payload, pad)))
      by (rewrite length_app, length_encode_block, Hw; lia).
    replace (length W + (length out + length (concat (out' :: outs'))))
      with (length (W ++ out) + length (concat (out' :: outs'))) by (rewrite length_app; lia).
    replace (length W + length out) with (length (W ++ out)) by (by rewrite length_app).
    rewrite !(app_assoc W out).
    apply IH; [done| |simpl in *; lia].
    rewrite length_app, length_encode_block, Hw.
    replace (length pre + (z * 4 + 4 + length payload + length pad))
      with ((length pre + z * 4 + 4) + (length payload + length pad)) by lia.
    rewrite Nat.Div0.add_mod, Hal, Hpa. done.
Qed.

End DecompressRoundTrip.

Lemma length_blocks_le lzo blocks outs :
  Forall2 (wf_block lzo) blocks outs -> length blocks <= length (concat (map encode_block blocks)).
Proof.
  induction 1 as [|[[[z size4] payload] pad] out blocks outs Hb _ IH]; simpl; [lia|].
  rewrite length_app. pose proof (length_encode_block z size4 payload pad).
  destruct Hb as (Hw & _). simpl in *. lia.
Qed.

(** X10.  Decompression of a well-formed oZlB file: after the magic and
    a size word equal to the total output length, a non-empty sequence
    of blocks (each possibly preceded by zero words, each a compressed
    block that LZO expands or a literal block of exactly 0x8000 bytes,
    each padded to a multiple of 4 and producing some output) is
    decompressed to the concatenation of the blocks' outputs, whatever
    bytes follow the last block. *)
Theorem decompress_well_formed lzo size4 blocks outs rest :
  length size4 = 4 -> Forall2 (wf_block lzo) blocks outs -> blocks <> [] ->
  le32 size4 = Z.of_nat (length (concat outs)) ->
  decompress lzo (jak2_header ++ size4 ++ concat (map encode_block blocks) ++ rest) =
  Ok (concat outs).
Proof.
  intros Hw Hwf Hne Hsz. unfold decompress.
  change 4 with (length jak2_header) at 2. rewrite read_u32_app by done.
  rewrite Hsz, Nat2Z.id.
  pose proof (length_blocks_le lzo blocks outs Hwf) as Hlb.
  pose proof (decompress_loop_wf lzo blocks outs rest (S (length (jak2_header ++ size4 ++
                concat (map encode_block blocks) ++ rest))) (jak2_header ++ size4) [] Hwf Hne)
    as H.
  rewrite <- app_assoc in H. simpl length in H. rewrite Hw in H. simpl in H.
  apply H; [done|]. rewrite !length_app. lia.
Qed.

(* ================================================================= *)
(** * [assert_string_empty_after] *)

Lemma after_nul_split s :
  ((x00 ∉ s) /\ after_nul s = []) \/
  (exists l1 rest, s = l1 ++ [x00] ++ rest /\ (x00 ∉ l1) /\ after_nul s = rest).
Proof.
  induction s as [|a s IH]; simpl.
  - left. split; [apply not_elem_of_nil|done].
  - destruct (byte_eqb_spec a x00) as [->|Ha].
    + right. exists [], s. split; [done|split; [apply not_elem_of_nil|done]].
    + destruct IH as [[Hn Ha']|(l1 & rest & -> & Hl1 & Hr)].
      * left. split; [|done]. rewrite not_elem_of_cons. split; [congruence|done].
      * right. exists (a :: l1), rest. split; [done|split; [|done]].
        rewrite not_elem_of_cons. split; [congruence|done].
Qed.

(** X11.  The name check of [get_objs_from_dgo] (archive and object
    headers) rejects a name field exactly when some nonzero byte
    follows its first null terminator. *)
Theorem empty_after_iff name60 :
  empty_after name60 = false <-> malformed_name name60.
Proof.
  split; [|apply malformed_name_rejected].
  unfold empty_after. intros Hf.
  destruct (after_nul_split name60) as [[_ Ha]|(l1 & rest & -> & Hl1 & Ha)];
    rewrite Ha in Hf; [done|].
  apply not_true_iff_false in Hf. rewrite forallb_forall in Hf.
  destruct (decide (Forall (fun b => b = x00) rest)) as [Hall|Hall].
  - destruct Hf. intros x Hx%list_elem_of_In. rewrite Forall_forall in Hall.
    rewrite (Hall x Hx). reflexivity.
  - apply not_Forall_Exists in Hall; [|apply _]. apply Exists_exists in Hall as (b & Hb & Hne).
    apply list_elem_of_split in Hb as (l2 & l3 & ->).
    exists l1, l2, b, l3. done.
Qed.

(* ================================================================= *)
(** * The dumps of [write_object_file_words] and [write_disassembly] *)

(** Modelled from the spec: [for_each_obj] (ObjectFileDB.h) visits every
    stored object once, in the global insertion order: the names of
    [obj_file_order], and for each name its variants in version order. *)
Definition all_entries (db : ObjectFileDB) : list ObjectFileData :=
  concat (map (variants db) (obj_file_order db)).

(** The file names written by the [for_each_obj] loop of a dump pass:
    the objects that pass the pass's test [keep], in visiting order. *)
Definition dumped_files (keep : ObjectFileData -> bool) (ext : string)
    (db : ObjectFileDB) : list string :=
  map (fun e => dump_file_name (record e) ext) (List.filter keep (all_entries db)).

(** [write_object_file_words]: an object is dumped when
    [obj.linked_data.segments == 3 || !dump_v3_only]; the linked data
    is produced by an external pass, given here by [segments_of]. *)
Definition write_object_file_words_files (segments_of : ObjectFileData -> nat)
    (dump_v3_only : bool) (db : ObjectFileDB) : list string :=
  dumped_files (fun e => Nat.eqb (segments_of e) 3 || negb dump_v3_only) ".txt" db.

(** [write_disassembly]: an object is dumped when
    [obj.linked_data.has_any_functions() || disassemble_objects_without_functions]. *)
Definition write_disassembly_files (has_any_functions : ObjectFileData -> bool)
    (disassemble_objects_without_functions : bool) (db : ObjectFileDB) : list string :=
  dumped_files (fun e => has_any_functions e || disassemble_objects_without_functions)
    ".func" db.

Lemma variants_name db k e :
  Inv db -> e ∈ variants db k -> name (record e) = k.
Proof.
  intros HI (i & Hi)%list_elem_of_lookup.
  pose proof (variants_lookup _ _ _ _ Hi) as HS.
  exact (proj1 (proj2 (proj1 HI k _ HS) i e Hi)).
Qed.

Lemma NoDup_unique_names db ks ext :
  Inv db -> NoDup ks ->
  NoDup (map (fun e => dump_file_name (record e) ext) (concat (map (variants db) ks))).
Proof.
  intros HI. induction 1 as [|k ks Hk Hks IH]; simpl; [constructor|].
  rewrite map_app. apply NoDup_app. split; [|split; [|exact IH]].
  - apply NoDup_alt. intros i j x Hi Hj.
    apply list_lookup_fmap_Some in Hi as (e1 & -> & Hi).
    apply list_lookup_fmap_Some in Hj as (e2 & E & Hj).
    pose proof (variants_lookup _ _ _ _ Hi) as HS.
    apply string_app_inj_r, to_unique_name_inj_full in E as [_ Ev].
    destruct (proj2 (proj1 HI k _ HS) i e1 Hi) as [_ <-].
    destruct (proj2 (proj1 HI k _ HS) j e2 Hj) as [_ <-]. done.
  - intros x (e1 & -> & He1)%list_elem_of_fmap (e2 & E & He2)%list_elem_of_fmap.
    apply list_elem_of_In, in_concat in He2 as (l & Hl & He2).
    apply list_elem_of_In, list_elem_of_fmap in Hl as (k' & -> & Hk').
    apply list_elem_of_In in He2.
    apply string_app_inj_r, to_unique_name_inj_full in E as [En _].
    rewrite (variants_name db k e1 HI He1), (variants_name db k' e2 HI He2) in En.
    subst k'. done.
Qed.

Lemma NoDup_map_filter {A B} (f : A -> B) (p : A -> bool) l :
  NoDup (map f l) -> NoDup (map f (List.filter p l)).
Proof.
  induction l as [|x l IH]; simpl; [done|].
  intros (Hx & Hl)%NoDup_cons. destruct (p x); simpl; [|by apply IH].
  apply NoDup_cons. split; [|by apply IH].
  intros Hin. apply Hx.
  apply list_elem_of_In in Hin. apply list_elem_of_In.
  apply in_map_iff in Hin as (y & <- & Hy). apply in_map. by apply filter_In in Hy as [? _].
Qed.

Lemma filter_true {A} (l : list A) : List.filter (fun _ => true) l = l.
Proof. induction l as [|x l IH]; simpl; [done|]. by rewrite IH. Qed.

Lemma map_sum_to_list {V} (f : V -> nat) (m : gmap string V) :
  map_sum f m = sum_list_with (fun kv => f kv.2) (map_to_list m).
Proof.
  unfold map_sum. rewrite map_fold_foldr.
  induction (map_to_list m) as [|[k v] l IH]; simpl; [done|]. by rewrite IH.
Qed.

Lemma sum_list_with_keys (g : string -> nat) {V} (h : string * V -> nat) l :
  (forall kv, kv ∈ l -> g kv.1 = h kv) -> sum_list_with h l = sum_list_with g (l.*1).
Proof.
  induction l as [|kv l IH]; intros H; simpl; [done|].
  rewrite (H kv) by left. rewrite IH; [done|]. intros kv' Hkv'. apply H. by right.
Qed.

Lemma length_concat_variants db ks :
  length (concat (map (variants db) ks)) = sum_list_with (fun k => length (variants db k)) ks.
Proof. induction ks as [|k ks IH]; simpl; [done|]. by rewrite length_app, IH. Qed.

Lemma length_all_entries db : Inv db -> length (all_entries db) = entry_count db.
Proof.
  intros (Hl & Hnd & Hmem). unfold all_entries, entry_count.
  rewrite length_concat_variants, map_sum_to_list.
  rewrite (sum_list_with_keys (fun k => length (variants db k)) (fun kv => length kv.2)).
  - apply sum_list_with_Permutation_proper. apply NoDup_Permutation;
      [done|apply NoDup_fst_map_to_list|].
    intros k. rewrite Hmem, list_elem_of_fmap. split.
    + intros [v Hv]. exists (k, v). split; [done|]. by apply elem_of_map_to_list.
    + intros ([k' v] & -> & Hkv). apply elem_of_map_to_list in Hkv. simpl. eauto.
  - intros [k v] Hkv. apply elem_of_map_to_list in Hkv. unfold variants. simpl. by rewrite Hkv.
Qed.

(** X12.  For a database built by the constructor, the dump passes
    [write_object_file_words] (".txt") and [write_disassembly] (".func")
    write pairwise distinct file names, whatever the results of the
    external passes; with [dump_v3_only = false], respectively
    [disassemble_objects_without_functions = true], they write one file
    per stored entry, a number whose value modulo 2^32 is the 32-bit
    [unique_obj_files]. *)
Theorem dump_passes_files crc32 lzo dgos db segments_of dump_v3_only has_any_functions dis :
  ObjectFileDB_init crc32 lzo dgos = Ok db ->
  NoDup (write_object_file_words_files segments_of dump_v3_only db) /\
  NoDup (write_disassembly_files has_any_functions dis db) /\
  length (write_object_file_words_files segments_of false db) = entry_count db /\
  length (write_disassembly_files has_any_functions true db) = entry_count db /\
  u32 (Z.of_nat (entry_count db)) = unique_obj_files (stats db).
Proof.
  intros H. destruct (Loaded_init crc32 lzo dgos db H) as [(HI & Hu & _) _].
  pose proof HI as (_ & Hnd & _).
  unfold write_object_file_words_files, write_disassembly_files, dumped_files.
  split; [|split; [|split; [|split]]].
  - apply NoDup_map_filter, NoDup_unique_names; done.
  - apply NoDup_map_filter, NoDup_unique_names; done.
  - rewrite length_map.
    erewrite List.filter_ext by (intros e; by rewrite orb_true_r).
    by rewrite filter_true, length_all_entries.
  - rewrite length_map.
    erewrite List.filter_ext by (intros e; by rewrite orb_true_r).
    by rewrite filter_true, length_all_entries.
  - by rewrite Hu.
Qed.

(* ================================================================= *)
(** * Instances of the database theorems on concrete files *)

(** Two DGO files: "a" holds object "b" = [05 06]; "c" holds the same
    object again (deduplicated) and a second "b" = [07] (a new variant). *)
Definition ex_name_c : list byte := x63 :: repeat x00 59.
Definition ex_dgo_a : list byte :=
  ex_dgo [x01; x00; x00; x00] ex_name_a ([x02; x00; x00; x00] ++ ex_name_b) [x05; x06].
Definition ex_dgo_c : list byte :=
  [x02; x00; x00; x00] ++ ex_name_c ++
  [x02; x00; x00; x00] ++ ex_name_b ++ [x05; x06] ++
  [x01; x00; x00; x00] ++ ex_name_b ++ [x07].
Definition ex_dgos : list (string * list byte) := [("a", ex_dgo_a); ("c", ex_dgo_c)].

Definition result_db (r : result ObjectFileDB) : ObjectFileDB :=
  match r with Ok db => db | Err _ => empty_db end.
Definition ex_db_a : ObjectFileDB :=
  result_db (ObjectFileDB_init crc_len stored_lzo [("a", ex_dgo_a)]).
Definition ex_db : ObjectFileDB := result_db (ObjectFileDB_init crc_len stored_lzo ex_dgos).

Definition default_data : ObjectFileData := mkData (mkRecord "" 0 0) [] 0.
Definition ex_variant (db : ObjectFileDB) (i : nat) : ObjectFileData :=
  default default_data (variants db "b" !! i).

Lemma ex_init_a : ObjectFileDB_init crc_len stored_lzo [("a", ex_dgo_a)] = Ok ex_db_a.
Proof. vm_compute. reflexivity. Qed.

Lemma init_statistics_witness :
  ObjectFileDB_init crc_len stored_lzo ex_dgos = Ok ex_db /\
  (total_dgo_bytes (stats ex_db) =
     u32 (Z.of_nat (sum_list_with (fun f => length (snd f)) ex_dgos)) /\
   total_obj_files (stats ex_db) = u32 (Z.of_nat (member_count ex_db)) /\
   unique_obj_files (stats ex_db) = u32 (Z.of_nat (entry_count ex_db)) /\
   unique_obj_bytes (stats ex_db) = u32 (Z.of_nat (entry_bytes ex_db)) /\
   entry_count ex_db <= member_count ex_db /\
   ((Z.of_nat (member_count ex_db) < 2 ^ 32)%Z ->
    (unique_obj_files (stats ex_db) <= total_obj_files (stats ex_db))%Z)).
Proof.
  assert (H : ObjectFileDB_init crc_len stored_lzo ex_dgos = Ok ex_db) by (vm_compute; reflexivity).
  split; [exact H|]. exact (init_statistics crc_len stored_lzo ex_dgos ex_db H).
Defined.

Lemma dump_file_names_distinct_witness :
  (ObjectFileDB_init crc_len stored_lzo ex_dgos = Ok ex_db /\
   obj_files_by_name ex_db !! "b" = Some (variants ex_db "b") /\
   variants ex_db "b" !! 1 = Some (ex_variant ex_db 1) /\
   dump_file_name (record (ex_variant ex_db 1)) ".txt" =
   dump_file_name (record (ex_variant ex_db 1)) ".txt") /\
  ("b" = "b" /\ 1 = 1).
Proof.
  assert (H : ObjectFileDB_init crc_len stored_lzo ex_dgos = Ok ex_db) by (vm_compute; reflexivity).
  assert (Hn : obj_files_by_name ex_db !! "b" = Some (variants ex_db "b"))
    by (vm_compute; reflexivity).
  assert (Hi : variants ex_db "b" !! 1 = Some (ex_variant ex_db 1)) by (vm_compute; reflexivity).
  split; [split; [exact H|split; [exact Hn|split; [exact Hi|reflexivity]]]|].
  exact (dump_file_names_distinct crc_len stored_lzo ex_dgos ex_db ".txt" "b" "b"
           (variants ex_db "b") (variants ex_db "b") 1 1 (ex_variant ex_db 1) (ex_variant ex_db 1)
           H Hn Hi Hn Hi eq_refl).
Defined.

Lemma parse_dgo_consumes_witness :
  parse_dgo "c" ex_dgo_c = Ok [("b", [x05; x06]); ("b", [x07])] /\
  (length [("b", [x05; x06]); ("b", [x07])] = Z.to_nat (le32 (take 4 ex_dgo_c)) /\
   length ex_dgo_c = 64 + sum_list_with (fun o => 64 + length (snd o))
                            [("b", [x05; x06]); ("b", [x07])]).
Proof.
  assert (H : parse_dgo "c" ex_dgo_c = Ok [("b", [x05; x06]); ("b", [x07])])
    by (vm_compute; reflexivity).
  split; [exact H|]. exact (parse_dgo_consumes "c" ex_dgo_c _ H).
Defined.

Lemma get_objs_from_dgo_effect_witness :
  (Inv ex_db_a /\ (0 <= total_obj_files (stats ex_db_a) < 2 ^ 32)%Z /\
   get_objs_from_dgo crc_len stored_lzo ex_db_a "c" ex_dgo_c = Ok ex_db) /\
  exists dgo_data objs rs,
    dgo_payload stored_lzo ex_dgo_c = Ok dgo_data /\ parse_dgo "c" dgo_data = Ok objs /\
    total_dgo_bytes (stats ex_db) =
      u32_add (total_dgo_bytes (stats ex_db_a)) (Z.of_nat (length ex_dgo_c)) /\
    total_obj_files (stats ex_db) =
      u32_add (total_obj_files (stats ex_db_a)) (Z.of_nat (length objs)) /\
    members ex_db "c" = members ex_db_a "c" ++ rs /\ map name rs = map fst objs /\
    (forall d, d <> "c" -> members ex_db d = members ex_db_a d).
Proof.
  assert (HI : Inv ex_db_a) by exact (proj1 (proj1 (Loaded_init crc_len stored_lzo _ _ ex_init_a))).
  assert (H : get_objs_from_dgo crc_len stored_lzo ex_db_a "c" ex_dgo_c = Ok ex_db)
    by (vm_compute; reflexivity).
  assert (Hr : (0 <= total_obj_files (stats ex_db_a) < 2 ^ 32)%Z)
    by (split; apply Z.leb_le || apply Z.ltb_lt; vm_compute; reflexivity).
  split; [split; [exact HI|split; [exact Hr|exact H]]|].
  exact (get_objs_from_dgo_effect crc_len stored_lzo ex_db_a "c" ex_dgo_c ex_db HI Hr H).
Defined.

Lemma stored_entries_distinct_witness :
  ObjectFileDB_init crc_len stored_lzo ex_dgos = Ok ex_db /\
  ((forall n l i e, obj_files_by_name ex_db !! n = Some l -> l !! i = Some e ->
      hash (record e) = crc_len (data e)) /\
   (forall n l i j e1 e2, obj_files_by_name ex_db !! n = Some l ->
      l !! i = Some e1 -> l !! j = Some e2 -> i <> j ->
      length (data e1) <> length (data e2) \/ hash (record e1) <> hash (record e2))).
Proof.
  assert (H : ObjectFileDB_init crc_len stored_lzo ex_dgos = Ok ex_db) by (vm_compute; reflexivity).
  split; [exact H|]. exact (stored_entries_distinct crc_len stored_lzo ex_dgos ex_db H).
Defined.

Lemma reference_counts_exact_witness :
  ObjectFileDB_init crc_len stored_lzo ex_dgos = Ok ex_db /\
  ((forall n l i e, obj_files_by_name ex_db !! n = Some l -> l !! i = Some e ->
      1 <= occurrences ex_db (record e) /\ reference_count e + 1 = occurrences ex_db (record e)) /\
   (forall d l r, obj_files_by_dgo ex_db !! d = Some l -> r ∈ l ->
      exists n l' i e, obj_files_by_name ex_db !! n = Some l' /\ l' !! i = Some e /\ record e = r)).
Proof.
  assert (H : ObjectFileDB_init crc_len stored_lzo ex_dgos = Ok ex_db) by (vm_compute; reflexivity).
  split; [exact H|]. exact (reference_counts_exact crc_len stored_lzo ex_dgos ex_db H).
Defined.

Lemma get_objs_from_dgo_keeps_entries_witness :
  (get_objs_from_dgo crc_len stored_lzo ex_db_a "c" ex_dgo_c = Ok ex_db /\
   obj_files_by_name ex_db_a !! "b" = Some (variants ex_db_a "b") /\
   variants ex_db_a "b" !! 0 = Some (ex_variant ex_db_a 0)) /\
  exists l' e', obj_files_by_name ex_db !! "b" = Some l' /\ l' !! 0 = Some e' /\
    record e' = record (ex_variant ex_db_a 0) /\ data e' = data (ex_variant ex_db_a 0) /\
    reference_count (ex_variant ex_db_a 0) <= reference_count e'.
Proof.
  assert (H : get_objs_from_dgo crc_len stored_lzo ex_db_a "c" ex_dgo_c = Ok ex_db)
    by (vm_compute; reflexivity).
  assert (Hn : obj_files_by_name ex_db_a !! "b" = Some (variants ex_db_a "b"))
    by (vm_compute; reflexivity).
  assert (Hi : variants ex_db_a "b" !! 0 = Some (ex_variant ex_db_a 0))
    by (vm_compute; reflexivity).
  split; [split; [exact H|split; [exact Hn|exact Hi]]|].
  exact (get_objs_from_dgo_keeps_entries crc_len stored_lzo ex_db_a "c" ex_dgo_c ex_db "b"
           (variants ex_db_a "b") 0 (ex_variant ex_db_a 0) H Hn Hi).
Defined.

Lemma dgo_listing_names_witness :
  ObjectFileDB_init crc_len stored_lzo ex_dgos = Ok ex_db /\
  (StronglySorted String.le (sorted_dgo_names ex_db) /\ NoDup (sorted_dgo_names ex_db) /\
   (forall d, d ∈ sorted_dgo_names ex_db <-> members ex_db d <> [])).
Proof.
  assert (H : ObjectFileDB_init crc_len stored_lzo ex_dgos = Ok ex_db) by (vm_compute; reflexivity).
  split; [exact H|]. exact (dgo_listing_names crc_len stored_lzo ex_dgos ex_db H).
Defined.

(** A compressed block of four bytes, then a zero word and a compressed
    block of two bytes padded with two bytes. *)
Definition ex_blocks : list (nat * list byte * list byte * list byte) :=
  [(0, [x04; x00; x00; x00], [x61; x62; x63; x64], []);
   (1, [x02; x00; x00; x00], [x65; x66], [x00; x00])].
Definition ex_outs : list (list byte) := [[x61; x62; x63; x64]; [x65; x66]].

Lemma decompress_well_formed_witness :
  (length [x06; x00; x00; x00] = 4 /\ Forall2 (wf_block stored_lzo) ex_blocks ex_outs /\
   ex_blocks <> [] /\ le32 [x06; x00; x00; x00] = Z.of_nat (length (concat ex_outs))) /\
  decompress stored_lzo (jak2_header ++ [x06; x00; x00; x00] ++
                         concat (map encode_block ex_blocks) ++ [x07]) =
  Ok (concat ex_outs).
Proof.
  assert (Hw : length [x06; x00; x00; x00] = 4) by reflexivity.
  assert (Hb : Forall2 (wf_block stored_lzo) ex_blocks ex_outs).
  { constructor; [|constructor; [|constructor]];
      (split; [reflexivity|split; [vm_compute; discriminate|split; [cbn; lia|
       split; [reflexivity|split; [left; split; [reflexivity|split; reflexivity]|discriminate]]]]]). }
  assert (Hne : ex_blocks <> []) by discriminate.
  assert (Hs : le32 [x06; x00; x00; x00] = Z.of_nat (length (concat ex_outs))) by reflexivity.
  split; [split; [exact Hw|split; [exact Hb|split; [exact Hne|exact Hs]]]|].
  exact (decompress_well_formed stored_lzo [x06; x00; x00; x00] ex_blocks ex_outs [x07]
           Hw Hb Hne Hs).
Defined.

Lemma dump_passes_files_witness :
  ObjectFileDB_init crc_len stored_lzo ex_dgos = Ok ex_db /\
  (NoDup (write_object_file_words_files (fun e => length (data e)) true ex_db) /\
   NoDup (write_disassembly_files (fun e => Nat.eqb (version (record e)) 0) false ex_db) /\
   length (write_object_file_words_files (fun e => length (data e)) false ex_db) =
     entry_count ex_db /\
   length (write_disassembly_files (fun e => Nat.eqb (version (record e)) 0) true ex_db) =
     entry_count ex_db /\
   u32 (Z.of_nat (entry_count ex_db)) = unique_obj_files (stats ex_db)).
Proof.
  assert (H : ObjectFileDB_init crc_len stored_lzo ex_dgos = Ok ex_db) by (vm_compute; reflexivity).
  split; [exact H|].
  exact (dump_passes_files crc_len stored_lzo ex_dgos ex_db (fun e => length (data e)) true
           (fun e => Nat.eqb (version (record e)) 0) false H).
Defined.
